(** * NFT marketplace ledger: a shallow embedding of [src/project.py]

    The SmartPy contract [NFTMarketplace] is embedded as a family of
    computations in a small state-and-failure monad over the contract
    storage.  Each entrypoint is transcribed statement by statement:
    an [assert] of the source is an [assert_that], an assignment to
    [self.data] is a [write], [sp.send] appends to the list of emitted
    operations.

    Modelling conventions.
    - [sp.nat] and [sp.mutez] are natural numbers ([N]); [sp.address] and
      [sp.string] are strings; [sp.big_map[sp.nat, token_type]] is a
      [gmap N token].
    - A failing computation hands back the machine as it was at the point of
      failure (no implicit roll-back), so that "a failed call changes
      nothing" is a property of the order of the checks in the code and has
      to be proved.  The host's all-or-nothing execution is [call].
    - Subtraction on [sp.mutez] fails when the result would be negative, and
      [sp.split_tokens] fails on a zero total, as in SmartPy.  The host's
      upper bound on a mutez amount is not part of the model: amounts are
      unbounded naturals.
    - [sp.send] is recorded as an emitted operation; its delivery by the
      host is outside the model. *)

From stdpp Require Import gmap strings list fin_maps.
From Stdlib Require Import NArith Lia.

Open Scope N_scope.

(** ** Data model *)

Abbreviation address := string (only parsing).
Abbreviation mutez := N (only parsing).

(** [token_type] of the source. *)
Record token := mk_token {
  metadata : string;
  author : address;
  owner : address;
  price : mutez;
  for_sale : bool
}.

(** [self.data] of [NFTMarketplace]. *)
Record storage := mk_storage {
  tokens : gmap N token;
  next_id : N;
  admin : address;
  mint_price : mutez;
  royalty_percent : N;
  platform_fee_percent : N;
  collected_fees : mutez;
  paused : bool
}.

(** Field assignments [self.data.f = v]. *)
Definition set_tokens (v : gmap N token) (s : storage) : storage :=
  mk_storage v (next_id s) (admin s) (mint_price s) (royalty_percent s)
             (platform_fee_percent s) (collected_fees s) (paused s).
Definition set_next_id (v : N) (s : storage) : storage :=
  mk_storage (tokens s) v (admin s) (mint_price s) (royalty_percent s)
             (platform_fee_percent s) (collected_fees s) (paused s).
Definition set_admin (v : address) (s : storage) : storage :=
  mk_storage (tokens s) (next_id s) v (mint_price s) (royalty_percent s)
             (platform_fee_percent s) (collected_fees s) (paused s).
Definition set_mint_price (v : mutez) (s : storage) : storage :=
  mk_storage (tokens s) (next_id s) (admin s) v (royalty_percent s)
             (platform_fee_percent s) (collected_fees s) (paused s).
Definition set_collected_fees (v : mutez) (s : storage) : storage :=
  mk_storage (tokens s) (next_id s) (admin s) (mint_price s) (royalty_percent s)
             (platform_fee_percent s) v (paused s).
Definition set_paused (v : bool) (s : storage) : storage :=
  mk_storage (tokens s) (next_id s) (admin s) (mint_price s) (royalty_percent s)
             (platform_fee_percent s) (collected_fees s) v.

(** Field assignments [self.data.tokens[id].f = v] act on the stored record. *)
Definition set_author (v : address) (t : token) : token :=
  mk_token (metadata t) v (owner t) (price t) (for_sale t).
Definition set_owner (v : address) (t : token) : token :=
  mk_token (metadata t) (author t) v (price t) (for_sale t).
Definition set_price (v : mutez) (t : token) : token :=
  mk_token (metadata t) (author t) (owner t) v (for_sale t).
Definition set_for_sale (v : bool) (t : token) : token :=
  mk_token (metadata t) (author t) (owner t) (price t) v.

(** What the host supplies with a call: [sp.sender] and [sp.amount]. *)
Record context := mk_context {
  sender : address;
  amount : mutez
}.

(** An operation emitted by [sp.send(destination, value)]. *)
Inductive operation :=
| Send (destination : address) (value : mutez).

(** ** The execution monad *)

Inductive outcome (A : Type) :=
| Done (a : A)
| Failed (msg : string).
Arguments Done {A} a.
Arguments Failed {A} msg.

(** The storage being mutated and the operations emitted so far. *)
Record machine := mk_machine {
  data : storage;
  emitted : list operation
}.

Definition M (A : Type) : Type := machine → outcome A * machine.

(** Sequencing, through stdpp's monad notations [x ← c; k] and [c;; k]:
    a failure stops the computation where it occurs. *)
#[global] Instance M_ret : MRet M := λ A (a : A) m, (Done a, m).

#[global] Instance M_bind : MBind M := λ A B (k : A → M B) (c : M A) m,
  match c m with
  | (Done a, m') => k a m'
  | (Failed e, m') => (Failed e, m')
  end.

Definition fail_with {A} (msg : string) : M A := λ m, (Failed msg, m).

(** [assert cond, msg] where [cond] reads [self.data]. *)
Definition assert_that (cond : storage → bool) (msg : string) : M unit :=
  λ m, if cond (data m) then (Done tt, m) else (Failed msg, m).

Definition read {A} (f : storage → A) : M A := λ m, (Done (f (data m)), m).

Definition write (f : storage → storage) : M unit :=
  λ m, (Done tt, mk_machine (f (data m)) (emitted m)).

(** [sp.send(destination, value)]. *)
Definition send (destination : address) (value : mutez) : M unit :=
  λ m, (Done tt, mk_machine (data m) (emitted m ++ [Send destination value])).

(** [self.data.tokens[token_id]]: reading a missing key fails. *)
Definition tokens_get (token_id : N) : M token :=
  λ m, match tokens (data m) !! token_id with
       | Some t => (Done t, m)
       | None => (Failed "Missing item in map", m)
       end.

(** [self.data.tokens[token_id].f = v]: the entry is read, changed, stored. *)
Definition tokens_set_field (token_id : N) (f : token → token) : M unit :=
  t ← tokens_get token_id;
  write (λ s, set_tokens (<[token_id := f t]> (tokens s)) s).

(** [sp.split_tokens(amount, quantity, total)]: [amount * quantity / total],
    rounded down. *)
Definition split_tokens (amt quantity total : N) : M mutez :=
  if bool_decide (total = 0) then fail_with "Division by zero"
  else mret (amt * quantity / total).

(** [a - b] on [sp.mutez]. *)
Definition sub_mutez (a b : mutez) : M mutez :=
  if bool_decide (b ≤ a) then mret (a - b) else fail_with "Mutez underflow".

(** [self.data.tokens.contains(token_id)]. *)
Definition contains (token_id : N) (s : storage) : bool :=
  bool_decide (is_Some (tokens s !! token_id)).

(** ** The contract *)

(** [__init__]. *)
Definition init (admin0 : address) (mint_price0 : mutez)
    (royalty_percent0 platform_fee_percent0 : N) : outcome storage :=
  if bool_decide (royalty_percent0 + platform_fee_percent0 < 100) then
    Done (mk_storage ∅ 0 admin0 mint_price0 royalty_percent0
                     platform_fee_percent0 0 false)
  else Failed "Fees too high".

Definition mint (ctx : context) (metadata0 : string) : M unit :=
  assert_that (λ s, negb (paused s)) "Contract is paused";;
  assert_that (λ s, bool_decide (amount ctx = mint_price s)) "Invalid mint price";;
  id ← read next_id;
  write (λ s, set_tokens
    (<[id := mk_token metadata0 (sender ctx) (sender ctx) 0 false]> (tokens s)) s);;
  write (λ s, set_next_id (next_id s + 1) s);;
  write (λ s, set_collected_fees (collected_fees s + amount ctx) s).

Definition list_for_sale (ctx : context) (token_id : N) (price0 : mutez) : M unit :=
  assert_that (λ s, negb (paused s)) "Contract is paused";;
  assert_that (contains token_id) "Token does not exist";;
  tok ← tokens_get token_id;
  assert_that (λ _, bool_decide (owner tok = sender ctx)) "Not the owner";;
  assert_that (λ _, negb (for_sale tok)) "Already listed for sale";;
  assert_that (λ _, bool_decide (0 < price0)) "Price must be greater than 0";;
  tokens_set_field token_id (set_price price0);;
  tokens_set_field token_id (set_for_sale true).

Definition cancel_sale (ctx : context) (token_id : N) : M unit :=
  assert_that (contains token_id) "Token does not exist";;
  tok ← tokens_get token_id;
  assert_that (λ _, bool_decide (owner tok = sender ctx)) "Not the owner";;
  assert_that (λ _, for_sale tok) "Not listed for sale";;
  tokens_set_field token_id (set_for_sale false);;
  tokens_set_field token_id (set_price 0).

Definition buy (ctx : context) (token_id : N) : M unit :=
  assert_that (λ s, negb (paused s)) "Contract is paused";;
  assert_that (contains token_id) "Token does not exist";;
  tok ← tokens_get token_id;
  assert_that (λ _, for_sale tok) "Token not for sale";;
  assert_that (λ _, bool_decide (sender ctx ≠ owner tok)) "Cannot buy your own token";;
  assert_that (λ _, bool_decide (amount ctx = price tok)) "Invalid price";;
  rp ← read royalty_percent;
  royalty_amount ← split_tokens (price tok) rp 100;
  fp ← read platform_fee_percent;
  platform_fee ← split_tokens (price tok) fp 100;
  rest ← sub_mutez (price tok) royalty_amount;
  seller_amount ← sub_mutez rest platform_fee;
  send (author tok) royalty_amount;;
  send (owner tok) seller_amount;;
  write (λ s, set_collected_fees (collected_fees s + platform_fee) s);;
  tokens_set_field token_id (set_owner (sender ctx));;
  tokens_set_field token_id (set_for_sale false);;
  tokens_set_field token_id (set_price 0).

Definition transfer (ctx : context) (token_id : N) (new_owner : address) : M unit :=
  assert_that (contains token_id) "Token does not exist";;
  assert_that (λ _, bool_decide (amount ctx = 0)) "No tez should be sent";;
  tok ← tokens_get token_id;
  assert_that (λ _, bool_decide (owner tok = sender ctx)) "Not the owner";;
  assert_that (λ _, bool_decide (new_owner ≠ sender ctx)) "Cannot transfer to yourself";;
  assert_that (λ _, negb (for_sale tok)) "Cancel sale before transfer";;
  tokens_set_field token_id (set_owner new_owner).

Definition update_author_address (ctx : context) (token_id : N)
    (new_author : address) : M unit :=
  assert_that (contains token_id) "Token does not exist";;
  tok ← tokens_get token_id;
  assert_that (λ _, bool_decide (author tok = sender ctx)) "Not the author";;
  assert_that (λ _, bool_decide (new_author ≠ sender ctx)) "Same address";;
  tokens_set_field token_id (set_author new_author).

Definition withdraw_fees (ctx : context) : M unit :=
  assert_that (λ s, bool_decide (sender ctx = admin s)) "Not admin";;
  assert_that (λ s, bool_decide (0 < collected_fees s)) "No fees to withdraw";;
  amt ← read collected_fees;
  write (set_collected_fees 0);;
  adm ← read admin;
  send adm amt.

Definition set_pause (ctx : context) (paused0 : bool) : M unit :=
  assert_that (λ s, bool_decide (sender ctx = admin s)) "Not admin";;
  write (set_paused paused0).

Definition update_mint_price (ctx : context) (new_price : mutez) : M unit :=
  assert_that (λ s, bool_decide (sender ctx = admin s)) "Not admin";;
  write (set_mint_price new_price).

Definition transfer_admin (ctx : context) (new_admin : address) : M unit :=
  assert_that (λ s, bool_decide (sender ctx = admin s)) "Not admin";;
  assert_that (λ s, bool_decide (new_admin ≠ admin s)) "Same admin";;
  write (set_admin new_admin).

(** Views. *)
Definition get_token (token_id : N) : M token :=
  assert_that (contains token_id) "Token does not exist";;
  tokens_get token_id.

Definition get_total_tokens : M N := read next_id.

Definition is_for_sale (token_id : N) : M bool :=
  assert_that (contains token_id) "Token does not exist";;
  tok ← tokens_get token_id;
  mret (for_sale tok).

(** ** Calls and reachable states *)

(** The entrypoints of the contract with their parameters. *)
Inductive entrypoint :=
| Mint (metadata0 : string)
| ListForSale (token_id : N) (price0 : mutez)
| CancelSale (token_id : N)
| Buy (token_id : N)
| Transfer (token_id : N) (new_owner : address)
| UpdateAuthorAddress (token_id : N) (new_author : address)
| WithdrawFees
| SetPause (paused0 : bool)
| UpdateMintPrice (new_price : mutez)
| TransferAdmin (new_admin : address).

Definition run_entrypoint (ctx : context) (ep : entrypoint) : M unit :=
  match ep with
  | Mint metadata0 => mint ctx metadata0
  | ListForSale token_id price0 => list_for_sale ctx token_id price0
  | CancelSale token_id => cancel_sale ctx token_id
  | Buy token_id => buy ctx token_id
  | Transfer token_id new_owner => transfer ctx token_id new_owner
  | UpdateAuthorAddress token_id new_author =>
      update_author_address ctx token_id new_author
  | WithdrawFees => withdraw_fees ctx
  | SetPause paused0 => set_pause ctx paused0
  | UpdateMintPrice new_price => update_mint_price ctx new_price
  | TransferAdmin new_admin => transfer_admin ctx new_admin
  end.

(** The body of an entrypoint run on a storage, with nothing emitted yet. *)
Definition run {A} (c : M A) (s : storage) : outcome A * machine :=
  c (mk_machine s []).

(** One call as the host executes it: the new storage and the emitted
    operations when the entrypoint completes, the error message otherwise. *)
Definition call (ctx : context) (ep : entrypoint) (s : storage)
    : outcome (storage * list operation) :=
  match run (run_entrypoint ctx ep) s with
  | (Done _, m) => Done (data m, emitted m)
  | (Failed e, _) => Failed e
  end.

(** The storage after a call: what the host keeps. *)
Definition storage_after (ctx : context) (ep : entrypoint) (s : storage) : storage :=
  match call ctx ep s with
  | Done (s', _) => s'
  | Failed _ => s
  end.

(** A sequence of calls, each with its context, run in order. *)
Fixpoint storage_after_all (calls : list (context * entrypoint)) (s : storage)
    : storage :=
  match calls with
  | [] => s
  | (ctx, ep) :: rest => storage_after_all rest (storage_after ctx ep s)
  end.

(** States reachable from construction. *)
Inductive reachable : storage → Prop :=
| reachable_init admin0 mint_price0 royalty_percent0 platform_fee_percent0 s :
    init admin0 mint_price0 royalty_percent0 platform_fee_percent0 = Done s →
    reachable s
| reachable_call ctx ep s s' ops :
    reachable s →
    call ctx ep s = Done (s', ops) →
    reachable s'.

(** ** Outcomes, classes of entrypoints and invariants *)

(** The storage after a successful [mint]. *)
Definition minted (ctx : context) (metadata0 : string) (s : storage) : storage :=
  mk_storage
    (<[next_id s := mk_token metadata0 (sender ctx) (sender ctx) 0 false]> (tokens s))
    (next_id s + 1) (admin s) (mint_price s) (royalty_percent s)
    (platform_fee_percent s) (collected_fees s + amount ctx) (paused s).

(** The storage after a successful [buy] of the token [tok] stored at
    [token_id]. *)
Definition bought (ctx : context) (token_id : N) (tok : token) (s : storage)
    : storage :=
  mk_storage
    (<[token_id := mk_token (metadata tok) (author tok) (sender ctx) 0 false]>
       (tokens s))
    (next_id s) (admin s) (mint_price s) (royalty_percent s)
    (platform_fee_percent s)
    (collected_fees s + price tok * platform_fee_percent s / 100) (paused s).

(** The entrypoints reserved to the administrator. *)
Definition admin_only (ep : entrypoint) : bool :=
  match ep with
  | WithdrawFees | SetPause _ | UpdateMintPrice _ | TransferAdmin _ => true
  | _ => false
  end.

(** None of the entrypoints below reads the payment. *)
Definition payment_not_read (ep : entrypoint) : bool :=
  match ep with
  | ListForSale _ _ | CancelSale _ | UpdateAuthorAddress _ _
  | WithdrawFees | SetPause _ | UpdateMintPrice _ | TransferAdmin _ => true
  | _ => false
  end.

(** The keys of [tokens] are the numbers below [next_id]. *)
Definition keys_below_next_id (s : storage) : Prop :=
  (∀ k, is_Some (tokens s !! k) ↔ k < next_id s) ∧
  N.of_nat (size (tokens s)) = next_id s.

(** A listed token has a positive price. *)
Definition listed_have_price (s : storage) : Prop :=
  ∀ k t, tokens s !! k = Some t → for_sale t = true → 0 < price t.

(** A token that is not listed has price 0. *)
Definition unlisted_have_no_price (s : storage) : Prop :=
  ∀ k t, tokens s !! k = Some t → for_sale t = false → price t = 0.

(** ** A concrete run *)

(** The contract of the test scenarios: mint price 1 tez, 5% royalty, 2%
    platform fee. *)
Definition scenario_start : storage :=
  mk_storage ∅ 0 "admin" 1000000 5 2 0 false.

Definition alice_mints : context * entrypoint :=
  (mk_context "alice" 1000000, Mint "NFT #1 by Alice").
Definition alice_lists : context * entrypoint :=
  (mk_context "alice" 0, ListForSale 0 10000000).
Definition admin_pauses : context * entrypoint :=
  (mk_context "admin" 0, SetPause true).

Definition scenario_minted : storage :=
  storage_after_all [alice_mints] scenario_start.
Definition scenario_listed : storage :=
  storage_after_all [alice_mints; alice_lists] scenario_start.
Definition scenario_paused : storage :=
  storage_after_all [alice_mints; admin_pauses] scenario_start.
Definition scenario_listed_paused : storage :=
  storage_after_all [alice_mints; alice_lists; admin_pauses] scenario_start.

Definition token_of_alice : token :=
  mk_token "NFT #1 by Alice" "alice" "alice" 0 false.
Definition token_of_alice_listed : token :=
  mk_token "NFT #1 by Alice" "alice" "alice" 10000000 true.

(** ** Notions for the further properties *)

(** The storage with the entry at [token_id] replaced. *)
Definition with_token (token_id : N) (t : token) (s : storage) : storage :=
  set_tokens (<[token_id := t]> (tokens s)) s.

(** What a call that completes has checked and produced, entrypoint by
    entrypoint. *)
Definition completes (ctx : context) (ep : entrypoint) (s s' : storage)
    (ops : list operation) : Prop :=
  match ep with
  | Mint metadata0 =>
      paused s = false ∧ amount ctx = mint_price s ∧
      s' = minted ctx metadata0 s ∧ ops = []
  | ListForSale token_id price0 =>
      ∃ tok, tokens s !! token_id = Some tok ∧ paused s = false ∧
        owner tok = sender ctx ∧ for_sale tok = false ∧ 0 < price0 ∧
        s' = with_token token_id (set_for_sale true (set_price price0 tok)) s ∧
        ops = []
  | CancelSale token_id =>
      ∃ tok, tokens s !! token_id = Some tok ∧
        owner tok = sender ctx ∧ for_sale tok = true ∧
        s' = with_token token_id (set_price 0 (set_for_sale false tok)) s ∧
        ops = []
  | Buy token_id =>
      ∃ tok, tokens s !! token_id = Some tok ∧ paused s = false ∧
        for_sale tok = true ∧ sender ctx ≠ owner tok ∧ amount ctx = price tok ∧
        price tok * royalty_percent s / 100 ≤ price tok ∧
        price tok * platform_fee_percent s / 100
          ≤ price tok - price tok * royalty_percent s / 100 ∧
        s' = bought ctx token_id tok s ∧
        ops = [Send (author tok) (price tok * royalty_percent s / 100);
               Send (owner tok)
                 (price tok - price tok * royalty_percent s / 100
                            - price tok * platform_fee_percent s / 100)]
  | Transfer token_id new_owner =>
      ∃ tok, tokens s !! token_id = Some tok ∧ amount ctx = 0 ∧
        owner tok = sender ctx ∧ new_owner ≠ sender ctx ∧ for_sale tok = false ∧
        s' = with_token token_id (set_owner new_owner tok) s ∧ ops = []
  | UpdateAuthorAddress token_id new_author =>
      ∃ tok, tokens s !! token_id = Some tok ∧
        author tok = sender ctx ∧ new_author ≠ sender ctx ∧
        s' = with_token token_id (set_author new_author tok) s ∧ ops = []
  | WithdrawFees =>
      sender ctx = admin s ∧ 0 < collected_fees s ∧
      s' = set_collected_fees 0 s ∧ ops = [Send (admin s) (collected_fees s)]
  | SetPause paused0 =>
      sender ctx = admin s ∧ s' = set_paused paused0 s ∧ ops = []
  | UpdateMintPrice new_price =>
      sender ctx = admin s ∧ s' = set_mint_price new_price s ∧ ops = []
  | TransferAdmin new_admin =>
      sender ctx = admin s ∧ new_admin ≠ admin s ∧
      s' = set_admin new_admin s ∧ ops = []
  end.

(** The token an entrypoint writes, if any: its [token_id] argument, or the
    next free key for [mint]. *)
Definition written_token (ep : entrypoint) (s : storage) : option N :=
  match ep with
  | Mint _ => Some (next_id s)
  | ListForSale token_id _ | CancelSale token_id | Buy token_id
  | Transfer token_id _ | UpdateAuthorAddress token_id _ => Some token_id
  | WithdrawFees | SetPause _ | UpdateMintPrice _ | TransferAdmin _ => None
  end.

(** The sum of the values of a list of emitted operations. *)
Definition sent_total (ops : list operation) : N :=
  foldr (λ op acc, match op with Send _ value => value + acc end) 0 ops.

(** The balance the host holds for the contract after one call: a completed
    call is credited with the payment and debited with what it sends; a
    failed call is undone. *)
Definition balance_after (ctx : context) (ep : entrypoint) (s : storage)
    (balance : mutez) : mutez :=
  match call ctx ep s with
  | Done (_, ops) => balance + amount ctx - sent_total ops
  | Failed _ => balance
  end.

Fixpoint balance_after_all (calls : list (context * entrypoint)) (s : storage)
    (balance : mutez) : mutez :=
  match calls with
  | [] => balance
  | (ctx, ep) :: rest =>
      balance_after_all rest (storage_after ctx ep s) (balance_after ctx ep s balance)
  end.

(** The number of calls of a sequence that are a [mint] and complete. *)
Fixpoint completed_mints (calls : list (context * entrypoint)) (s : storage) : N :=
  match calls with
  | [] => 0
  | (ctx, ep) :: rest =>
      (match ep, call ctx ep s with
       | Mint _, Done _ => 1
       | _, _ => 0
       end) + completed_mints rest (storage_after ctx ep s)
  end.

(** ** Symbolic execution of the entrypoints *)

Ltac unfold_contract :=
  unfold storage_after, call, run, run_entrypoint, mint, list_for_sale,
    cancel_sale, buy, transfer, update_author_address, withdraw_fees, set_pause,
    update_mint_price, transfer_admin, get_token, get_total_tokens, is_for_sale,
    tokens_set_field, split_tokens, sub_mutez in *.

Ltac unfold_monad :=
  unfold mbind, M_bind, mret, M_ret, assert_that, read, write, send, tokens_get,
    fail_with in *.

Lemma contains_true token_id s :
  contains token_id s = true ↔ is_Some (tokens s !! token_id).
Proof. unfold contains. apply bool_decide_eq_true. Qed.

Lemma contains_lookup token_id s t :
  tokens s !! token_id = Some t → contains token_id s = true.
Proof. intros Ht. apply contains_true. by exists t. Qed.

Lemma contains_false token_id s :
  contains token_id s = false ↔ tokens s !! token_id = None.
Proof.
  unfold contains. rewrite bool_decide_eq_false, eq_None_not_Some. done.
Qed.

(** Turns the recorded results of the checks into propositions. *)
Ltac checks_to_props :=
  repeat match goal with
  | H : bool_decide _ = true |- _ => apply bool_decide_eq_true in H
  | H : bool_decide _ = false |- _ => apply bool_decide_eq_false in H
  | H : negb _ = true |- _ => apply negb_true_iff in H
  | H : negb _ = false |- _ => apply negb_false_iff in H
  | H : contains _ _ = true |- _ => apply contains_true in H
  | H : contains _ _ = false |- _ => apply contains_false in H
  end.

(** Runs a body statement by statement, splitting on every check. *)
Ltac exec :=
  unfold_contract; unfold_monad; cbn in *;
  repeat (case_match; simplify_map_eq/=);
  checks_to_props; simplify_map_eq/=.

(** The two shares taken out of a price never exceed it when the percentages
    add up to at most 100. *)
Lemma shares_le_price (p r f : N) :
  r + f ≤ 100 → p * r / 100 + p * f / 100 ≤ p.
Proof.
  intros Hrf.
  pose proof (N.Div0.mul_div_le (p * r) 100) as Hr.
  pose proof (N.Div0.mul_div_le (p * f) 100) as Hf.
  nia.
Qed.

(** Hence neither subtraction of [buy] can fail for such percentages. *)
Lemma shares_fit_price (p r f : N) :
  r + f ≤ 100 →
  p * r / 100 ≤ p ∧ p * f / 100 ≤ p - p * r / 100.
Proof.
  intros Hrf. pose proof (shares_le_price p r f Hrf) as Hle.
  pose proof (N.le_0_l (p * r / 100)).
  pose proof (N.le_0_l (p * f / 100)).
  generalize dependent (p * r / 100).
  generalize dependent (p * f / 100).
  intros; lia.
Qed.

(** The percentages are those given at construction, whatever is called. *)
Lemma call_keeps_percentages ctx ep s s' ops :
  call ctx ep s = Done (s', ops) →
  royalty_percent s' = royalty_percent s ∧
  platform_fee_percent s' = platform_fee_percent s.
Proof. intros H. destruct ep; exec; done. Qed.

Lemma reachable_percentages s :
  reachable s → royalty_percent s + platform_fee_percent s < 100.
Proof.
  induction 1 as [a mp r f s Hinit | ctx ep s s' ops _ IH Hcall].
  - unfold init in Hinit. case_bool_decide; simplify_eq/=. done.
  - apply call_keeps_percentages in Hcall as [-> ->]. done.
Qed.

(** ** Atomicity *)

(** C3. Every entrypoint, run from any storage with any caller, payment and
    arguments, either completes, and the host keeps the storage and the
    operations it produced, or fails at a point where the storage is still
    exactly the one before the call (all of [tokens], [next_id], [admin],
    [mint_price], [collected_fees], [paused]) and nothing has been emitted.
    The views never change the storage, whether they fail or not. *)
Theorem failed_call_leaves_storage_unchanged
    (ctx : context) (ep : entrypoint) (s : storage) (token_id : N) :
  match run (run_entrypoint ctx ep) s with
  | (Done _, m) =>
      call ctx ep s = Done (data m, emitted m) ∧
      storage_after ctx ep s = data m
  | (Failed msg, m) =>
      m = mk_machine s [] ∧
      call ctx ep s = Failed msg ∧
      storage_after ctx ep s = s
  end ∧
  (run (get_token token_id) s).2 = mk_machine s [] ∧
  (run get_total_tokens s).2 = mk_machine s [] ∧
  (run (is_for_sale token_id) s).2 = mk_machine s [].
Proof.
  split; [|repeat split; exec; done].
  destruct ep; exec; done.
Qed.

(** ** Minting *)

(** C6. A [mint] that succeeds was paid exactly [mint_price]; it stores the
    token [{metadata, author = caller, owner = caller, price = 0,
    for_sale = false}] at key [next_id], adds one to [next_id] and the payment
    to [collected_fees], and changes nothing else.  With the contract not
    paused and the exact payment it does succeed.  With any other payment,
    smaller or larger, it fails. *)
Theorem mint_correct (ctx : context) (metadata0 : string) (s : storage) :
  (∀ s' ops, call ctx (Mint metadata0) s = Done (s', ops) →
     amount ctx = mint_price s ∧
     tokens s' !! next_id s
       = Some (mk_token metadata0 (sender ctx) (sender ctx) 0 false) ∧
     next_id s' = next_id s + 1 ∧
     collected_fees s' = collected_fees s + amount ctx ∧
     s' = minted ctx metadata0 s ∧ ops = []) ∧
  (paused s = false → amount ctx = mint_price s →
     call ctx (Mint metadata0) s = Done (minted ctx metadata0 s, [])) ∧
  (amount ctx ≠ mint_price s →
     ∃ msg, call ctx (Mint metadata0) s = Failed msg ∧
            storage_after ctx (Mint metadata0) s = s) ∧
  (amount ctx < mint_price s ∨ mint_price s < amount ctx →
     paused s = false →
     call ctx (Mint metadata0) s = Failed "Invalid mint price").
Proof.
  split; [|split; [|split]].
  - intros s' ops H. exec. done.
  - intros Hp Ha. exec; first [done | congruence].
  - intros Hne. exec; eauto.
  - intros Hne Hp. exec; first [done | congruence | lia].
Qed.

(** ** Buying *)

(** What a completed [buy] went through and what it produced. *)
Lemma call_buy_done ctx token_id s s' ops :
  call ctx (Buy token_id) s = Done (s', ops) →
  ∃ tok,
    tokens s !! token_id = Some tok ∧
    paused s = false ∧ for_sale tok = true ∧
    sender ctx ≠ owner tok ∧ amount ctx = price tok ∧
    price tok * royalty_percent s / 100 ≤ price tok ∧
    price tok * platform_fee_percent s / 100
      ≤ price tok - price tok * royalty_percent s / 100 ∧
    s' = bought ctx token_id tok s ∧
    ops = [Send (author tok) (price tok * royalty_percent s / 100);
           Send (owner tok)
             (price tok - price tok * royalty_percent s / 100
                        - price tok * platform_fee_percent s / 100)].
Proof.
  intros H. exec.
  eexists; repeat split; try done.
  unfold bought, set_tokens; cbn. by rewrite !insert_insert_eq.
Qed.

(** A [buy] whose checks all pass completes, as long as the two shares can
    be taken out of the price. *)
Lemma call_buy_checks_pass ctx token_id s tok :
  tokens s !! token_id = Some tok →
  paused s = false → for_sale tok = true →
  sender ctx ≠ owner tok → amount ctx = price tok →
  royalty_percent s + platform_fee_percent s ≤ 100 →
  ∃ ops, call ctx (Buy token_id) s = Done (bought ctx token_id tok s, ops).
Proof.
  intros Htok Hp Hfs Hne Ha Hrf.
  destruct (shares_fit_price (price tok) _ _ Hrf) as [Hr Hf].
  pose proof (contains_lookup _ _ _ Htok) as Hc.
  exec; try first [done | congruence].
  eexists. do 2 f_equal.
  unfold bought, set_tokens; cbn. by rewrite !insert_insert_eq.
Qed.

(** C1. A [buy] that succeeds on a token listed at price [p] emits exactly two
    payments, [floor(p * royalty_percent / 100)] to the token's author and
    [p - royalty - platform_fee] to its current owner, in that order, and adds
    [floor(p * platform_fee_percent / 100)] to [collected_fees].  The three
    amounts add up to [p]; when both shares round down to zero the seller
    receives [p]. *)
Theorem buy_fee_split (ctx : context) (token_id : N) (s s' : storage)
    (ops : list operation) (tok : token) :
  call ctx (Buy token_id) s = Done (s', ops) →
  tokens s !! token_id = Some tok →
  let p := price tok in
  let royalty := p * royalty_percent s / 100 in
  let platform_fee := p * platform_fee_percent s / 100 in
  let seller_amount := p - royalty - platform_fee in
  ops = [Send (author tok) royalty; Send (owner tok) seller_amount] ∧
  collected_fees s' = collected_fees s + platform_fee ∧
  royalty + platform_fee + seller_amount = p ∧
  (royalty = 0 → platform_fee = 0 → seller_amount = p).
Proof.
  intros Hcall Htok.
  apply call_buy_done in Hcall
    as (tok' & Htok' & _ & _ & _ & _ & Hr & Hf & -> & ->).
  simplify_eq. cbn. repeat split; lia.
Qed.

(** C7. In a reachable state, [buy] succeeds exactly when the contract is not
    paused, the token exists, it is for sale, the caller is not its owner and
    the payment equals its price.  A successful [buy] leaves at [token_id] the
    same token with [owner] set to the caller, [for_sale] to false and [price]
    to 0, its [metadata] and [author] unchanged. *)
Theorem buy_succeeds_iff (ctx : context) (token_id : N) (s : storage) :
  reachable s →
  ((∃ s' ops, call ctx (Buy token_id) s = Done (s', ops)) ↔
   (paused s = false ∧
    ∃ tok, tokens s !! token_id = Some tok ∧ for_sale tok = true ∧
           sender ctx ≠ owner tok ∧ amount ctx = price tok)) ∧
  (∀ s' ops tok,
     call ctx (Buy token_id) s = Done (s', ops) →
     tokens s !! token_id = Some tok →
     tokens s' !! token_id
       = Some (mk_token (metadata tok) (author tok) (sender ctx) 0 false)).
Proof.
  intros Hreach. split; [split|].
  - intros (s' & ops & Hcall).
    apply call_buy_done in Hcall as (tok & ? & ? & ? & ? & ? & _).
    split; [done|]. by exists tok.
  - intros (Hp & tok & Htok & Hfs & Hne & Ha).
    apply reachable_percentages in Hreach.
    destruct (call_buy_checks_pass ctx token_id s tok) as [ops Hcall];
      try done; [lia|].
    eauto.
  - intros s' ops tok Hcall Htok.
    apply call_buy_done in Hcall as (tok' & Htok' & _ & _ & _ & _ & _ & _ & -> & _).
    simplify_eq. cbn. by rewrite lookup_insert_eq.
Qed.

(** ** Effect of a call on the token map *)

Ltac rewritten_entry :=
  do 3 eexists;
  split; [eassumption|]; split; [reflexivity|]; split; [reflexivity|];
  split; [reflexivity|].

(** A completed call either leaves the token map and the counter alone, or is
    a [mint], or rewrites one existing entry, keeping its metadata; the sale
    fields of the rewritten entry are either kept, or set to a positive price
    and listed, or reset to price 0 and not listed. *)
Lemma call_done_tokens ctx ep s s' ops :
  call ctx ep s = Done (s', ops) →
  (tokens s' = tokens s ∧ next_id s' = next_id s) ∨
  (∃ metadata0, ep = Mint metadata0 ∧ s' = minted ctx metadata0 s) ∨
  (∃ token_id t t',
     tokens s !! token_id = Some t ∧
     tokens s' = <[token_id := t']> (tokens s) ∧
     next_id s' = next_id s ∧
     metadata t' = metadata t ∧
     ((for_sale t' = for_sale t ∧ price t' = price t) ∨
      (for_sale t' = true ∧ 0 < price t') ∨
      (for_sale t' = false ∧ price t' = 0))).
Proof.
  intros H. destruct ep.
  - right; left. exec. exists metadata0. split; reflexivity.
  - right; right. exec. rewrite insert_insert_eq.
    rewritten_entry. right; left. done.
  - right; right. exec. rewrite insert_insert_eq.
    rewritten_entry. right; right. done.
  - right; right.
    apply call_buy_done in H as (tok & Htok & _ & _ & _ & _ & _ & _ & -> & _).
    rewritten_entry. right; right. done.
  - right; right. exec. rewritten_entry. left. done.
  - right; right. exec. rewritten_entry. left. done.
  - left. exec. done.
  - left. exec. done.
  - left. exec. done.
  - left. exec. done.
Qed.

(** ** Invariants of the reachable states *)

Lemma init_done admin0 mint_price0 r f s :
  init admin0 mint_price0 r f = Done s →
  r + f < 100 ∧ s = mk_storage ∅ 0 admin0 mint_price0 r f 0 false.
Proof. unfold init. case_bool_decide; naive_solver. Qed.

Lemma keys_below_next_id_call ctx ep s s' ops :
  call ctx ep s = Done (s', ops) →
  keys_below_next_id s → keys_below_next_id s'.
Proof.
  intros Hcall [Hkeys Hsize].
  destruct (call_done_tokens _ _ _ _ _ Hcall)
    as [[Ht Hn] | [(md & _ & ->) | (id & t & t' & Hid & Ht & Hn & _)]].
  - unfold keys_below_next_id. rewrite Ht, Hn. done.
  - assert (tokens s !! next_id s = None) as Hfresh.
    { apply eq_None_not_Some. rewrite Hkeys. lia. }
    split; cbn.
    + intros k. rewrite lookup_insert_is_Some, Hkeys. lia.
    + rewrite map_size_insert_None by done. lia.
  - unfold keys_below_next_id. rewrite Ht, Hn. split.
    + intros k. rewrite lookup_insert_is_Some, <- Hkeys.
      destruct (decide (id = k)) as [<- | Hne].
      * split; [intros _; by eexists | by left].
      * split; [intros [? | [_ ?]]; done | by right].
    + rewrite map_size_insert_Some by done. done.
Qed.

Lemma reachable_keys_below_next_id s : reachable s → keys_below_next_id s.
Proof.
  induction 1 as [a mp r f s Hinit | ctx ep s s' ops _ IH Hcall].
  - apply init_done in Hinit as [_ ->]. split; cbn.
    + intros k. rewrite lookup_empty. split; [by intros [? ?] | lia].
    + by rewrite map_size_empty.
  - by eapply keys_below_next_id_call.
Qed.

Lemma sale_invariants_call ctx ep s s' ops :
  call ctx ep s = Done (s', ops) →
  listed_have_price s ∧ unlisted_have_no_price s →
  listed_have_price s' ∧ unlisted_have_no_price s'.
Proof.
  intros Hcall [Hl Hu].
  destruct (call_done_tokens _ _ _ _ _ Hcall)
    as [[Ht Hn] | [(md & _ & ->) | (id & t & t' & Hid & Ht & _ & _ & Hsale)]].
  - unfold listed_have_price, unlisted_have_no_price. rewrite Ht. done.
  - split; intros k t; cbn; rewrite lookup_insert_Some;
      intros [[_ <-] | [_ Hk]]; cbn; try done; eauto.
  - unfold listed_have_price, unlisted_have_no_price. rewrite Ht.
    split; intros k u; rewrite lookup_insert_Some;
      (intros [[_ <-] | [_ Hk]]; [|by eauto]).
    + destruct Hsale as [[-> ->] | [[_ ?] | [-> _]]]; [by eauto | done | done].
    + destruct Hsale as [[-> ->] | [[-> _] | [_ ?]]]; [by eauto | done | done].
Qed.

Lemma reachable_sale_invariants s :
  reachable s → listed_have_price s ∧ unlisted_have_no_price s.
Proof.
  induction 1 as [a mp r f s Hinit | ctx ep s s' ops _ IH Hcall].
  - apply init_done in Hinit as [_ ->].
    split; intros k t; cbn; by rewrite lookup_empty.
  - by eapply sale_invariants_call.
Qed.

(** What the host keeps after a call is the result of a completed call, or
    the storage it started from. *)
Lemma storage_after_cases ctx ep s :
  (∃ ops, call ctx ep s = Done (storage_after ctx ep s, ops)) ∨
  (∃ msg, call ctx ep s = Failed msg ∧ storage_after ctx ep s = s).
Proof.
  unfold storage_after. destruct (call ctx ep s) as [[s' ops] | msg]; eauto.
Qed.

Lemma reachable_storage_after ctx ep s :
  reachable s → reachable (storage_after ctx ep s).
Proof.
  intros Hs. destruct (storage_after_cases ctx ep s) as [[ops H] | (msg & _ & ->)].
  - by eapply reachable_call.
  - done.
Qed.

Lemma reachable_storage_after_all calls s :
  reachable s → reachable (storage_after_all calls s).
Proof.
  revert s. induction calls as [| [ctx ep] calls IH]; intros s Hs; cbn; [done|].
  apply IH. by apply reachable_storage_after.
Qed.

(** C4. In every reachable state the keys of [tokens] are exactly the numbers
    [0 .. next_id - 1], and [next_id] is the number of tokens.  Whatever call
    is made next, [next_id] does not decrease, every key in use stays in use
    for the token with the same metadata, and a key that comes into use is
    the previous [next_id], which no token had. *)
Theorem token_keys_sequential (s : storage) :
  reachable s →
  (∀ k, is_Some (tokens s !! k) ↔ k < next_id s) ∧
  N.of_nat (size (tokens s)) = next_id s ∧
  ∀ ctx ep,
    let s' := storage_after ctx ep s in
    next_id s ≤ next_id s' ∧
    (∀ k t, tokens s !! k = Some t →
       ∃ t', tokens s' !! k = Some t' ∧ metadata t' = metadata t) ∧
    (∀ k, tokens s !! k = None → is_Some (tokens s' !! k) →
       k = next_id s ∧ next_id s' = next_id s + 1).
Proof.
  intros Hreach.
  destruct (reachable_keys_below_next_id s Hreach) as [Hkeys Hsize].
  split; [done|]. split; [done|].
  intros ctx ep s'. subst s'.
  destruct (storage_after_cases ctx ep s) as [[ops Hcall] | (msg & _ & ->)].
  2: { split; [lia|]. split; [by eauto|]. intros k -> [? ?]. done. }
  destruct (call_done_tokens _ _ _ _ _ Hcall)
    as [[Ht Hn] | [(md & _ & ->) | (id & t & t' & Hid & Ht & Hn & Hmd & _)]].
  - rewrite Ht, Hn. split; [lia|]. split; [by eauto|]. intros k -> [? ?]. done.
  - cbn. split; [lia|]. split.
    + intros k t Hk. exists t. split; [|done].
      rewrite lookup_insert_ne; [done|].
      intros <-. assert (next_id s < next_id s); [|lia].
      apply Hkeys. by eexists.
    + intros k Hnone. rewrite lookup_insert_is_Some.
      intros [<- | [_ [? ?]]]; [done | congruence].
  - rewrite Ht, Hn. split; [lia|]. split.
    + intros k u Hk. destruct (decide (id = k)) as [<- | Hne].
      * rewrite lookup_insert_eq. exists t'. split; congruence.
      * rewrite lookup_insert_ne by done. by exists u.
    + intros k Hnone. rewrite lookup_insert_is_Some.
      intros [<- | [_ [? ?]]]; congruence.
Qed.

(** C5. In every reachable state a token that is for sale has a positive
    price.  Listing at price 0 fails (an amount cannot be negative), and a
    [cancel_sale] or a [buy] that succeeds leaves the token not for sale with
    price 0. *)
Theorem for_sale_implies_positive_price (s : storage) :
  reachable s →
  (∀ k t, tokens s !! k = Some t → for_sale t = true → 0 < price t) ∧
  (∀ ctx k, ∃ msg, call ctx (ListForSale k 0) s = Failed msg ∧
                   storage_after ctx (ListForSale k 0) s = s) ∧
  (∀ ctx k s' ops,
     call ctx (CancelSale k) s = Done (s', ops) ∨
     call ctx (Buy k) s = Done (s', ops) →
     ∃ t, tokens s' !! k = Some t ∧ for_sale t = false ∧ price t = 0).
Proof.
  intros Hreach. split; [|split].
  - apply reachable_sale_invariants. done.
  - intros ctx k. exec; try (eexists; split; reflexivity); lia.
  - intros ctx k s' ops [Hcall | Hcall].
    + exec. eexists. done.
    + apply call_buy_done in Hcall as (tok & _ & _ & _ & _ & _ & _ & _ & -> & _).
      eexists. cbn. rewrite lookup_insert_eq. done.
Qed.

(** C10. In every reachable state a token that is not for sale has price 0,
    so that a token has a positive price exactly when it is for sale.  [mint]
    creates the token with price 0 and not for sale, and a [cancel_sale] or a
    [buy] that succeeds clears the price together with the listing. *)
Theorem not_for_sale_implies_zero_price (s : storage) :
  reachable s →
  (∀ k t, tokens s !! k = Some t → for_sale t = false → price t = 0) ∧
  (∀ k t, tokens s !! k = Some t → (0 < price t ↔ for_sale t = true)) ∧
  (∀ ctx metadata0 s' ops,
     call ctx (Mint metadata0) s = Done (s', ops) →
     ∃ t, tokens s' !! next_id s = Some t ∧ for_sale t = false ∧ price t = 0) ∧
  (∀ ctx k s' ops,
     call ctx (CancelSale k) s = Done (s', ops) ∨
     call ctx (Buy k) s = Done (s', ops) →
     ∃ t, tokens s' !! k = Some t ∧ for_sale t = false ∧ price t = 0).
Proof.
  intros Hreach.
  destruct (reachable_sale_invariants s Hreach) as [Hl Hu].
  split; [done|]. split; [|split].
  - intros k t Hk. split.
    + intros Hpos. destruct (for_sale t) eqn:Hfs; [done|].
      specialize (Hu k t Hk Hfs). lia.
    + intros Hfs. exact (Hl k t Hk Hfs).
  - intros ctx md s' ops Hcall. exec. eexists. done.
  - intros ctx k s' ops [Hcall | Hcall].
    + exec. eexists. done.
    + apply call_buy_done in Hcall as (tok & _ & _ & _ & _ & _ & _ & _ & -> & _).
      eexists. cbn. rewrite lookup_insert_eq. done.
Qed.

(** ** Administration *)

Lemma admin_only_rejects ctx ep s :
  admin_only ep = true → sender ctx ≠ admin s →
  run (run_entrypoint ctx ep) s = (Failed "Not admin", mk_machine s []).
Proof. intros Hep Hne. destruct ep; try done; exec; done. Qed.

(** Only a [transfer_admin] changes the administrator, to its argument. *)
Lemma admin_storage_after ctx ep s :
  admin (storage_after ctx ep s) = admin s ∨
  ep = TransferAdmin (admin (storage_after ctx ep s)).
Proof.
  destruct (storage_after_cases ctx ep s) as [[ops Hcall] | (msg & _ & ->)];
    [|by left].
  revert Hcall. generalize (storage_after ctx ep s). intros s' Hcall.
  destruct ep; try (left; exec; done).
  right. exec. done.
Qed.

Lemma admin_storage_after_all (old : address) calls s :
  admin s ≠ old →
  (∀ ctx, (ctx, TransferAdmin old) ∉ calls) →
  admin (storage_after_all calls s) ≠ old.
Proof.
  revert s. induction calls as [| [ctx ep] calls IH]; intros s Hs Hcalls; cbn;
    [done|].
  apply IH.
  - destruct (admin_storage_after ctx ep s) as [-> | Hep]; [done|].
    intros Hold. apply (Hcalls ctx). rewrite Hep, Hold. by left.
  - intros ctx' Hin. apply (Hcalls ctx'). by right.
Qed.

(** C8. Called by anyone but the current administrator, each of
    [withdraw_fees], [set_pause], [update_mint_price] and [transfer_admin]
    fails with "Not admin" before anything is written.  After a successful
    [transfer_admin] the former administrator is such a caller: through any
    further calls, as long as none is a [transfer_admin] back to it, the four
    entrypoints fail for it. *)
Theorem admin_entrypoints_reject_others
    (ctx : context) (ep : entrypoint) (s : storage) :
  admin_only ep = true →
  (sender ctx ≠ admin s →
     run (run_entrypoint ctx ep) s = (Failed "Not admin", mk_machine s []) ∧
     call ctx ep s = Failed "Not admin" ∧
     storage_after ctx ep s = s) ∧
  (∀ new_admin s' ops calls payment,
     call ctx (TransferAdmin new_admin) s = Done (s', ops) →
     (∀ ctx', (ctx', TransferAdmin (sender ctx)) ∉ calls) →
     call (mk_context (sender ctx) payment) ep (storage_after_all calls s')
       = Failed "Not admin").
Proof.
  intros Hep. split.
  - intros Hne. pose proof (admin_only_rejects ctx ep s Hep Hne) as Hrun.
    split; [done|]. unfold storage_after, call. rewrite Hrun. done.
  - intros new_admin s' ops calls payment Hcall Hcalls.
    assert (admin s' ≠ sender ctx) as Hs'.
    { clear Hcalls. exec. congruence. }
    pose proof (admin_storage_after_all (sender ctx) calls s' Hs' Hcalls) as Hne.
    unfold call.
    rewrite (admin_only_rejects (mk_context (sender ctx) payment) ep _ Hep);
      [done|]. cbn. done.
Qed.

(** ** Pausing *)

(** C2, as the code has it.  While the contract is paused, [mint], [buy] and
    also [list_for_sale] fail with "Contract is paused".  [transfer] and
    [cancel_sale] succeed when their own checks pass, and so do
    [withdraw_fees], [set_pause], [update_mint_price] and [transfer_admin]
    for the administrator.  After the administrator has unpaused, a [mint]
    paid exactly [mint_price] succeeds. *)
Theorem pause_blocks_mint_buy_and_listing (ctx : context) (s : storage) :
  paused s = true →
  (∀ metadata0, call ctx (Mint metadata0) s = Failed "Contract is paused") ∧
  (∀ token_id, call ctx (Buy token_id) s = Failed "Contract is paused") ∧
  (∀ token_id price0,
     call ctx (ListForSale token_id price0) s = Failed "Contract is paused") ∧
  (∀ token_id new_owner tok,
     tokens s !! token_id = Some tok → amount ctx = 0 →
     owner tok = sender ctx → new_owner ≠ sender ctx → for_sale tok = false →
     call ctx (Transfer token_id new_owner) s
       = Done (set_tokens (<[token_id := set_owner new_owner tok]> (tokens s)) s,
               [])) ∧
  (∀ token_id tok,
     tokens s !! token_id = Some tok →
     owner tok = sender ctx → for_sale tok = true →
     call ctx (CancelSale token_id) s
       = Done (set_tokens
                 (<[token_id := set_price 0 (set_for_sale false tok)]> (tokens s)) s,
               [])) ∧
  (sender ctx = admin s →
     (0 < collected_fees s →
        call ctx WithdrawFees s
          = Done (set_collected_fees 0 s, [Send (admin s) (collected_fees s)])) ∧
     (∀ paused0, call ctx (SetPause paused0) s = Done (set_paused paused0 s, [])) ∧
     (∀ new_price,
        call ctx (UpdateMintPrice new_price) s
          = Done (set_mint_price new_price s, [])) ∧
     (∀ new_admin, new_admin ≠ admin s →
        call ctx (TransferAdmin new_admin) s = Done (set_admin new_admin s, [])) ∧
     (∀ ctx' metadata0, amount ctx' = mint_price s →
        call ctx' (Mint metadata0) (storage_after ctx (SetPause false) s)
          = Done (minted ctx' metadata0 (set_paused false s), []))).
Proof.
  intros Hp. repeat apply conj.
  - intros md. exec; first [done | congruence].
  - intros id. exec; first [done | congruence].
  - intros id p. exec; first [done | congruence].
  - intros id new_owner tok Htok Ha Ho Hn Hfs.
    pose proof (contains_lookup _ _ _ Htok). exec; first [done | congruence].
  - intros id tok Htok Ho Hfs.
    pose proof (contains_lookup _ _ _ Htok). exec; try first [done | congruence].
    by rewrite insert_insert_eq.
  - intros Ha. repeat apply conj.
    + intros Hfees. exec; first [done | congruence].
    + intros b. exec; first [done | congruence].
    + intros p. exec; first [done | congruence].
    + intros a Hne. exec; first [done | congruence].
    + intros ctx' md Hpay. exec; first [done | congruence].
Qed.

(** ** The concrete run is reachable *)

Lemma scenario_reachable calls :
  reachable (storage_after_all calls scenario_start).
Proof.
  apply reachable_storage_after_all.
  by apply (reachable_init "admin" 1000000 5 2).
Qed.

(** The expectations of the source's test scenarios, on the embedding. *)

(** [test_buy]: Bob buys token 0 at 10 tez; the fees go from 1 tez to 1.2 tez,
    Alice receives the royalty as author and the rest as seller. *)
Example test_buy_fees :
  call (mk_context "bob" 10000000) (Buy 0) scenario_listed
    = Done (mk_storage
              {[ 0 := mk_token "NFT #1 by Alice" "alice" "bob" 0 false ]}
              1 "admin" 1000000 5 2 1200000 false,
            [Send "alice" 500000; Send "alice" 9300000]).
Proof. vm_compute. reflexivity. Qed.

(** [test_buy]: the messages of the failing purchases. *)
Example test_buy_errors :
  call (mk_context "charlie" 10000000) (Buy 999) scenario_listed
    = Failed "Token does not exist" ∧
  call (mk_context "charlie" 10000000) (Buy 0) scenario_minted
    = Failed "Token not for sale" ∧
  call (mk_context "alice" 10000000) (Buy 0) scenario_listed
    = Failed "Cannot buy your own token" ∧
  call (mk_context "charlie" 9000000) (Buy 0) scenario_listed
    = Failed "Invalid price" ∧
  call (mk_context "charlie" 11000000) (Buy 0) scenario_listed
    = Failed "Invalid price".
Proof. repeat split; vm_compute; reflexivity. Qed.

(** [test_edge_cases_rounding]: at a price of 1 mutez both shares round down
    to 0 and the seller receives the whole price. *)
Example test_edge_cases_rounding :
  let tiny := mk_storage ∅ 0 "admin" 1 5 2 0 false in
  let listed :=
    storage_after_all
      [(mk_context "alice" 1, Mint "Tiny NFT");
       (mk_context "alice" 0, ListForSale 0 1)] tiny in
  call (mk_context "bob" 1) (Buy 0) listed
    = Done (mk_storage {[ 0 := mk_token "Tiny NFT" "alice" "bob" 0 false ]}
              1 "admin" 1 5 2 1 false,
            [Send "alice" 0; Send "alice" 1]).
Proof. vm_compute. reflexivity. Qed.

(** [test_transfer]: a transfer with tez attached is refused. *)
Example test_transfer_with_tez :
  call (mk_context "alice" 1000000) (Transfer 0 "bob") scenario_minted
    = Failed "No tez should be sent".
Proof. vm_compute. reflexivity. Qed.

(** [test_admin_functions]: minting is refused while paused. *)
Example test_mint_paused :
  call (mk_context "alice" 1000000) (Mint "Blocked") scenario_paused
    = Failed "Contract is paused".
Proof. vm_compute. reflexivity. Qed.

(** Counterexample to C2 as stated: in a reachable paused state the owner of
    an unlisted token lists it at a positive price, all the other checks of
    [list_for_sale] pass, and the call fails. *)
Lemma list_for_sale_fails_when_paused :
  reachable scenario_paused ∧
  paused scenario_paused = true ∧
  tokens scenario_paused !! 0 = Some token_of_alice ∧
  owner token_of_alice = sender (mk_context "alice" 0) ∧
  for_sale token_of_alice = false ∧
  0 < 10000000 ∧
  call (mk_context "alice" 0) (ListForSale 0 10000000) scenario_paused
    = Failed "Contract is paused" ∧
  ¬ ∃ s' ops,
      call (mk_context "alice" 0) (ListForSale 0 10000000) scenario_paused
        = Done (s', ops).
Proof.
  split; [apply scenario_reachable|].
  repeat split; try (vm_compute; congruence).
  intros (s' & ops & H). vm_compute in H. congruence.
Qed.

Lemma payment_not_read_call caller payment ep s :
  payment_not_read ep = true →
  call (mk_context caller payment) ep s = call (mk_context caller 0) ep s.
Proof. intros Hep. destruct ep; try done; reflexivity. Qed.

(** C9, on the code.  Each of [list_for_sale], [cancel_sale],
    [update_author_address], [withdraw_fees], [set_pause],
    [update_mint_price] and [transfer_admin] completes when called with a
    payment of 5 mutez, exactly as it does without payment; the 5 mutez are
    not added to [collected_fees]. *)
Theorem unpaid_entrypoints_accept_payment :
  call (mk_context "alice" 5) (ListForSale 0 10000000) scenario_minted
    = Done (scenario_listed, []) ∧
  call (mk_context "alice" 5) (CancelSale 0) scenario_listed
    = Done (scenario_minted, []) ∧
  call (mk_context "alice" 5) (UpdateAuthorAddress 0 "carol") scenario_minted
    = Done (set_tokens {[ 0 := set_author "carol" token_of_alice ]}
              scenario_minted, []) ∧
  call (mk_context "admin" 5) WithdrawFees scenario_minted
    = Done (set_collected_fees 0 scenario_minted, [Send "admin" 1000000]) ∧
  call (mk_context "admin" 5) (SetPause true) scenario_minted
    = Done (scenario_paused, []) ∧
  call (mk_context "admin" 5) (UpdateMintPrice 2000000) scenario_minted
    = Done (set_mint_price 2000000 scenario_minted, []) ∧
  call (mk_context "admin" 5) (TransferAdmin "new_admin") scenario_minted
    = Done (set_admin "new_admin" scenario_minted, []) ∧
  collected_fees scenario_listed = collected_fees scenario_minted.
Proof. repeat split; vm_compute; reflexivity. Qed.

(** ** The theorems at the concrete run *)

Lemma buy_fee_split_witness :
  let ctx := mk_context "bob" 10000000 in
  let s' := bought ctx 0 token_of_alice_listed scenario_listed in
  let ops := [Send "alice" 500000; Send "alice" 9300000] in
  call ctx (Buy 0) scenario_listed = Done (s', ops) ∧
  tokens scenario_listed !! 0 = Some token_of_alice_listed ∧
  collected_fees s' = 1000000 + 200000 ∧
  500000 + 200000 + 9300000 = 10000000.
Proof.
  intros ctx s' ops.
  assert (call ctx (Buy 0) scenario_listed = Done (s', ops)) as Hcall
    by (vm_compute; reflexivity).
  assert (tokens scenario_listed !! 0 = Some token_of_alice_listed) as Htok
    by (vm_compute; reflexivity).
  destruct (buy_fee_split ctx 0 scenario_listed s' ops token_of_alice_listed
              Hcall Htok) as (_ & Hfees & Hsum & _).
  split; [exact Hcall|]. split; [exact Htok|]. split; [exact Hfees|exact Hsum].
Defined.

Lemma mint_correct_witness :
  call (mk_context "alice" 1000000) (Mint "NFT #1 by Alice") scenario_start
    = Done (scenario_minted, []) ∧
  (∃ msg, call (mk_context "alice" 2000000) (Mint "Invalid") scenario_start
            = Failed msg ∧
          storage_after (mk_context "alice" 2000000) (Mint "Invalid")
            scenario_start = scenario_start) ∧
  call (mk_context "alice" 500000) (Mint "Invalid") scenario_start
    = Failed "Invalid mint price".
Proof.
  split; [|split].
  - destruct (mint_correct (mk_context "alice" 1000000) "NFT #1 by Alice"
                scenario_start) as (_ & Hok & _).
    apply Hok; reflexivity.
  - destruct (mint_correct (mk_context "alice" 2000000) "Invalid"
                scenario_start) as (_ & _ & Hne & _).
    apply Hne. vm_compute. discriminate.
  - destruct (mint_correct (mk_context "alice" 500000) "Invalid"
                scenario_start) as (_ & _ & _ & Hlt).
    apply Hlt; [left; vm_compute; reflexivity | reflexivity].
Defined.

Lemma buy_succeeds_iff_witness :
  reachable scenario_listed ∧
  (∃ s' ops, call (mk_context "bob" 10000000) (Buy 0) scenario_listed
               = Done (s', ops)) ∧
  ¬ (∃ s' ops, call (mk_context "alice" 10000000) (Buy 0) scenario_listed
                 = Done (s', ops)).
Proof.
  pose proof (scenario_reachable [alice_mints; alice_lists]) as Hreach.
  split; [exact Hreach|]. split.
  - apply (buy_succeeds_iff (mk_context "bob" 10000000) 0 scenario_listed Hreach).
    split; [reflexivity|]. exists token_of_alice_listed.
    repeat split; vm_compute; congruence.
  - intros Hdone.
    apply (buy_succeeds_iff (mk_context "alice" 10000000) 0 scenario_listed Hreach)
      in Hdone as (_ & tok & Htok & _ & Hne & _).
    vm_compute in Htok. injection Htok as <-. apply Hne. reflexivity.
Defined.

Lemma token_keys_sequential_witness :
  reachable scenario_listed ∧
  N.of_nat (size (tokens scenario_listed)) = next_id scenario_listed ∧
  next_id scenario_listed
    ≤ next_id (storage_after (mk_context "bob" 1000000) (Mint "NFT #2 by Bob")
                 scenario_listed).
Proof.
  pose proof (scenario_reachable [alice_mints; alice_lists]) as Hreach.
  destruct (token_keys_sequential scenario_listed Hreach) as (_ & Hsize & Hnext).
  split; [exact Hreach|]. split; [exact Hsize|].
  exact (proj1 (Hnext (mk_context "bob" 1000000) (Mint "NFT #2 by Bob"))).
Defined.

Lemma for_sale_implies_positive_price_witness :
  reachable scenario_listed ∧ 0 < price token_of_alice_listed.
Proof.
  pose proof (scenario_reachable [alice_mints; alice_lists]) as Hreach.
  split; [exact Hreach|].
  destruct (for_sale_implies_positive_price scenario_listed Hreach) as (Hpos & _).
  apply (Hpos 0 token_of_alice_listed); vm_compute; reflexivity.
Defined.

Lemma not_for_sale_implies_zero_price_witness :
  reachable scenario_minted ∧ price token_of_alice = 0.
Proof.
  pose proof (scenario_reachable [alice_mints]) as Hreach.
  split; [exact Hreach|].
  destruct (not_for_sale_implies_zero_price scenario_minted Hreach) as (Hzero & _).
  apply (Hzero 0 token_of_alice); vm_compute; reflexivity.
Defined.

Lemma admin_entrypoints_reject_others_witness :
  call (mk_context "alice" 0) (SetPause true) scenario_minted
    = Failed "Not admin" ∧
  call (mk_context "admin" 0) (SetPause true)
       (storage_after_all [alice_lists]
          (set_admin "new_admin" scenario_minted))
    = Failed "Not admin".
Proof.
  split.
  - destruct (admin_entrypoints_reject_others (mk_context "alice" 0)
                (SetPause true) scenario_minted eq_refl) as (Hother & _).
    apply Hother. vm_compute. discriminate.
  - destruct (admin_entrypoints_reject_others (mk_context "admin" 0)
                (SetPause true) scenario_minted eq_refl) as (_ & Hformer).
    apply (Hformer "new_admin" _ [] [alice_lists] 0).
    + vm_compute. reflexivity.
    + intros ctx' Hin. apply list_elem_of_singleton in Hin. discriminate.
Defined.

Lemma pause_blocks_mint_buy_and_listing_witness :
  paused scenario_listed_paused = true ∧
  call (mk_context "alice" 0) (Mint "Blocked") scenario_listed_paused
    = Failed "Contract is paused" ∧
  call (mk_context "alice" 0) (CancelSale 0) scenario_listed_paused
    = Done (set_tokens
              (<[0 := set_price 0 (set_for_sale false token_of_alice_listed)]>
                 (tokens scenario_listed_paused))
              scenario_listed_paused, []).
Proof.
  assert (paused scenario_listed_paused = true) as Hp by reflexivity.
  destruct (pause_blocks_mint_buy_and_listing (mk_context "alice" 0)
              scenario_listed_paused Hp) as (Hmint & _ & _ & _ & Hcancel & _).
  split; [exact Hp|]. split; [apply Hmint|].
  apply Hcancel; vm_compute; reflexivity.
Defined.

(** ** The entrypoints one by one *)

Lemma call_done_completes ctx ep s s' ops :
  call ctx ep s = Done (s', ops) → completes ctx ep s s' ops.
Proof.
  intros H. destruct ep; cbn.
  - exec. done.
  - exec. eexists. repeat split; try done.
    unfold with_token, set_tokens; cbn. by rewrite insert_insert_eq.
  - exec. eexists. repeat split; try done.
    unfold with_token, set_tokens; cbn. by rewrite insert_insert_eq.
  - by apply call_buy_done.
  - exec. eexists. repeat split; done.
  - exec. eexists. repeat split; done.
  - exec. done.
  - exec. done.
  - exec. done.
  - exec. done.
Qed.

Lemma completes_call_done ctx ep s s' ops :
  (∀ token_id, ep = Buy token_id →
     royalty_percent s + platform_fee_percent s ≤ 100) →
  completes ctx ep s s' ops → call ctx ep s = Done (s', ops).
Proof.
  intros Hrf H. destruct ep; cbn in H.
  - destruct H as (? & ? & -> & ->). exec; first [done | congruence].
  - destruct H as (tok & Htok & ? & ? & ? & ? & -> & ->).
    pose proof (contains_lookup _ _ _ Htok).
    exec; try first [done | congruence].
    unfold with_token, set_tokens; cbn. by rewrite insert_insert_eq.
  - destruct H as (tok & Htok & ? & ? & -> & ->).
    pose proof (contains_lookup _ _ _ Htok).
    exec; try first [done | congruence].
    unfold with_token, set_tokens; cbn. by rewrite insert_insert_eq.
  - destruct H as (tok & Htok & ? & ? & ? & ? & _ & _ & -> & ->).
    destruct (call_buy_checks_pass ctx token_id s tok) as [ops Hcall];
      try done; [by eapply Hrf|].
    pose proof Hcall as Hc.
    apply call_buy_done in Hc as (tok' & Htok' & _ & _ & _ & _ & _ & _ & _ & ->).
    by simplify_eq.
  - destruct H as (tok & Htok & ? & ? & ? & ? & -> & ->).
    pose proof (contains_lookup _ _ _ Htok).
    exec; first [done | congruence].
  - destruct H as (tok & Htok & ? & ? & -> & ->).
    pose proof (contains_lookup _ _ _ Htok).
    exec; first [done | congruence].
  - destruct H as (? & ? & -> & ->). exec; first [done | congruence].
  - destruct H as (? & -> & ->). exec; first [done | congruence].
  - destruct H as (? & -> & ->). exec; first [done | congruence].
  - destruct H as (? & ? & -> & ->). exec; first [done | congruence].
Qed.

(** For the entrypoints other than [buy] no assumption on the percentages is
    needed. *)
Lemma completes_call_done_simple ctx ep s s' ops :
  (∀ token_id, ep ≠ Buy token_id) →
  completes ctx ep s s' ops → call ctx ep s = Done (s', ops).
Proof.
  intros Hep. apply completes_call_done. intros id ->. by destruct (Hep id).
Qed.

Lemma call_done_iff_completes ctx ep s s' ops :
  (∀ token_id, ep ≠ Buy token_id) →
  call ctx ep s = Done (s', ops) ↔ completes ctx ep s s' ops.
Proof.
  intros Hep. split; [apply call_done_completes|by apply completes_call_done_simple].
Qed.

(** ** Listing and cancelling *)

(** X1. [list_for_sale] succeeds exactly when the contract is not paused, the
    token exists, the caller owns it, it is not listed yet and the asked price
    is positive.  It then stores the price and the listing on that token,
    keeps its metadata, author and owner, emits nothing and leaves the fees
    alone, whatever payment came with the call. *)
Theorem list_for_sale_succeeds_iff
    (ctx : context) (token_id : N) (price0 : mutez) (s : storage) :
  ((∃ s' ops, call ctx (ListForSale token_id price0) s = Done (s', ops)) ↔
   (paused s = false ∧
    ∃ tok, tokens s !! token_id = Some tok ∧ owner tok = sender ctx ∧
           for_sale tok = false ∧ 0 < price0)) ∧
  (∀ s' ops tok,
     call ctx (ListForSale token_id price0) s = Done (s', ops) →
     tokens s !! token_id = Some tok →
     tokens s' !! token_id
       = Some (mk_token (metadata tok) (author tok) (owner tok) price0 true) ∧
     ops = [] ∧ collected_fees s' = collected_fees s).
Proof.
  split; [split|].
  - intros (s' & ops & H). apply call_done_completes in H.
    destruct H as (tok & ? & ? & ? & ? & ? & _). eauto 10.
  - intros (Hp & tok & Htok & Ho & Hfs & Hpos).
    do 2 eexists. apply completes_call_done_simple; [done|].
    exists tok. repeat split; done.
  - intros s' ops tok H Htok. apply call_done_completes in H.
    destruct H as (tok' & ? & _ & _ & _ & _ & -> & ->). simplify_eq.
    cbn. rewrite lookup_insert_eq. done.
Qed.

(** X2. In a reachable state, cancelling a listing that has just been made
    gives back the storage as it was before the listing: the owner's
    [cancel_sale] succeeds, with any payment, paused or not, and the token is
    again unlisted with price 0. *)
Theorem list_then_cancel_restores
    (ctx : context) (token_id : N) (price0 payment : mutez)
    (s s' : storage) (ops : list operation) :
  reachable s →
  call ctx (ListForSale token_id price0) s = Done (s', ops) →
  call (mk_context (sender ctx) payment) (CancelSale token_id) s' = Done (s, []).
Proof.
  intros Hreach H. apply call_done_completes in H.
  destruct H as (tok & Htok & _ & Ho & Hfs & _ & -> & ->).
  destruct (reachable_sale_invariants s Hreach) as [_ Hu].
  specialize (Hu token_id tok Htok Hfs).
  apply completes_call_done_simple; [done|].
  exists (set_for_sale true (set_price price0 tok)). cbn.
  rewrite lookup_insert_eq. repeat split; try done.
  destruct s as [tks ? ? ? ? ? ? ?], tok as [md au ow pr fs]; cbn in *.
  subst. unfold with_token, set_tokens; cbn. f_equal.
  rewrite insert_insert_eq. symmetry. by apply insert_id.
Qed.

(** X3. [cancel_sale] succeeds exactly when the token exists, the caller owns
    it and it is listed; the pause flag and the payment play no part.  It
    then clears the listing and the price, keeps metadata, author and owner,
    and emits nothing. *)
Theorem cancel_sale_succeeds_iff (ctx : context) (token_id : N) (s : storage) :
  ((∃ s' ops, call ctx (CancelSale token_id) s = Done (s', ops)) ↔
   (∃ tok, tokens s !! token_id = Some tok ∧ owner tok = sender ctx ∧
           for_sale tok = true)) ∧
  (∀ s' ops tok,
     call ctx (CancelSale token_id) s = Done (s', ops) →
     tokens s !! token_id = Some tok →
     tokens s' !! token_id
       = Some (mk_token (metadata tok) (author tok) (owner tok) 0 false) ∧
     ops = [] ∧ collected_fees s' = collected_fees s).
Proof.
  split; [split|].
  - intros (s' & ops & H). apply call_done_completes in H.
    destruct H as (tok & ? & ? & ? & _). eauto 10.
  - intros (tok & Htok & Ho & Hfs).
    do 2 eexists. apply completes_call_done_simple; [done|].
    exists tok. repeat split; done.
  - intros s' ops tok H Htok. apply call_done_completes in H.
    destruct H as (tok' & ? & _ & _ & -> & ->). simplify_eq.
    cbn. rewrite lookup_insert_eq. done.
Qed.

(** ** Transfers and authorship *)

(** X4. [transfer] succeeds exactly when the token exists, no payment is
    attached, the caller owns the token, the new owner is someone else and the
    token is not listed; the pause flag plays no part.  It changes the owner
    of that token and nothing else about it.  On an existing token a payment
    is refused before ownership is looked at. *)
Theorem transfer_succeeds_iff
    (ctx : context) (token_id : N) (new_owner : address) (s : storage) :
  ((∃ s' ops, call ctx (Transfer token_id new_owner) s = Done (s', ops)) ↔
   (∃ tok, tokens s !! token_id = Some tok ∧ amount ctx = 0 ∧
           owner tok = sender ctx ∧ new_owner ≠ sender ctx ∧
           for_sale tok = false)) ∧
  (∀ s' ops tok,
     call ctx (Transfer token_id new_owner) s = Done (s', ops) →
     tokens s !! token_id = Some tok →
     tokens s' !! token_id
       = Some (mk_token (metadata tok) (author tok) new_owner (price tok) false) ∧
     ops = [] ∧ collected_fees s' = collected_fees s) ∧
  (is_Some (tokens s !! token_id) → amount ctx ≠ 0 →
     call ctx (Transfer token_id new_owner) s = Failed "No tez should be sent").
Proof.
  split; [split|split].
  - intros (s' & ops & H). apply call_done_completes in H.
    destruct H as (tok & ? & ? & ? & ? & ? & _). eauto 10.
  - intros (tok & Htok & Ha & Ho & Hne & Hfs).
    do 2 eexists. apply completes_call_done_simple; [done|].
    exists tok. repeat split; done.
  - intros s' ops tok H Htok. apply call_done_completes in H.
    destruct H as (tok' & ? & _ & _ & _ & Hfs & -> & ->). simplify_eq.
    cbn. rewrite lookup_insert_eq. unfold set_owner. rewrite Hfs. done.
  - intros Hsome Ha. apply contains_true in Hsome. exec; first [done | congruence].
Qed.

(** X5. A transfer can be undone by the receiver: after a successful
    [transfer] to [new_owner], a [transfer] of the same token by [new_owner]
    back to the former owner succeeds and gives back the storage as it was. *)
Theorem transfer_back_restores
    (ctx : context) (token_id : N) (new_owner : address)
    (s s' : storage) (ops : list operation) :
  call ctx (Transfer token_id new_owner) s = Done (s', ops) →
  call (mk_context new_owner 0) (Transfer token_id (sender ctx)) s' = Done (s, []).
Proof.
  intros H. apply call_done_completes in H.
  destruct H as (tok & Htok & _ & Ho & Hne & Hfs & -> & ->).
  apply completes_call_done_simple; [done|].
  exists (set_owner new_owner tok). cbn.
  rewrite lookup_insert_eq. repeat split; try done; try congruence.
  destruct s as [tks ? ? ? ? ? ? ?], tok as [md au ow pr fs]; cbn in *.
  subst. unfold with_token, set_tokens; cbn. f_equal.
  rewrite insert_insert_eq. symmetry. by apply insert_id.
Qed.

(** X6. [update_author_address] succeeds exactly when the token exists, the
    caller is its recorded author and the new author is someone else; pause
    flag, payment, owner and listing play no part.  It changes the author of
    that token and nothing else about it. *)
Theorem update_author_address_succeeds_iff
    (ctx : context) (token_id : N) (new_author : address) (s : storage) :
  ((∃ s' ops,
      call ctx (UpdateAuthorAddress token_id new_author) s = Done (s', ops)) ↔
   (∃ tok, tokens s !! token_id = Some tok ∧ author tok = sender ctx ∧
           new_author ≠ sender ctx)) ∧
  (∀ s' ops tok,
     call ctx (UpdateAuthorAddress token_id new_author) s = Done (s', ops) →
     tokens s !! token_id = Some tok →
     tokens s' !! token_id
       = Some (mk_token (metadata tok) new_author (owner tok) (price tok)
                        (for_sale tok)) ∧
     ops = [] ∧ collected_fees s' = collected_fees s).
Proof.
  split; [split|].
  - intros (s' & ops & H). apply call_done_completes in H.
    destruct H as (tok & ? & ? & ? & _). eauto 10.
  - intros (tok & Htok & Ha & Hne).
    do 2 eexists. apply completes_call_done_simple; [done|].
    exists tok. repeat split; done.
  - intros s' ops tok H Htok. apply call_done_completes in H.
    destruct H as (tok' & ? & _ & _ & -> & ->). simplify_eq.
    cbn. rewrite lookup_insert_eq. done.
Qed.

(** A completed call leaves every token it does not write as it was. *)
Lemma completes_other_tokens ctx ep s s' ops k :
  completes ctx ep s s' ops →
  written_token ep s ≠ Some k →
  tokens s' !! k = tokens s !! k.
Proof.
  intros H Hk. destruct ep; cbn in *.
  - destruct H as (_ & _ & -> & _). cbn. apply lookup_insert_ne. congruence.
  - destruct H as (tok & _ & _ & _ & _ & _ & -> & _). cbn.
    apply lookup_insert_ne. congruence.
  - destruct H as (tok & _ & _ & _ & -> & _). cbn.
    apply lookup_insert_ne. congruence.
  - destruct H as (tok & _ & _ & _ & _ & _ & _ & _ & -> & _). cbn.
    apply lookup_insert_ne. congruence.
  - destruct H as (tok & _ & _ & _ & _ & _ & -> & _). cbn.
    apply lookup_insert_ne. congruence.
  - destruct H as (tok & _ & _ & _ & -> & _). cbn.
    apply lookup_insert_ne. congruence.
  - destruct H as (_ & _ & -> & _). done.
  - destruct H as (_ & -> & _). done.
  - destruct H as (_ & -> & _). done.
  - destruct H as (_ & _ & -> & _). done.
Qed.

(** In a reachable state a call keeps every token in place with its metadata,
    and with its author unless it is an [update_author_address] of that
    token. *)
Lemma token_storage_after ctx ep s k t :
  reachable s →
  tokens s !! k = Some t →
  ∃ t', tokens (storage_after ctx ep s) !! k = Some t' ∧
        metadata t' = metadata t ∧
        (author t' = author t ∨ ep = UpdateAuthorAddress k (author t')).
Proof.
  intros Hreach Hk.
  destruct (storage_after_cases ctx ep s) as [[ops Hcall] | (msg & _ & ->)];
    [|by eauto].
  revert Hcall. generalize (storage_after ctx ep s). intros s' Hcall.
  apply call_done_completes in Hcall.
  destruct (decide (written_token ep s = Some k)) as [Hw | Hw].
  2: { rewrite (completes_other_tokens _ _ _ _ _ _ Hcall Hw). eauto. }
  destruct ep; cbn in *; simplify_eq.
  - destruct (reachable_keys_below_next_id s Hreach) as [Hkeys _].
    assert (next_id s < next_id s); [|lia]. apply Hkeys. by eexists.
  - destruct Hcall as (tok & ? & _ & _ & _ & _ & -> & _). simplify_eq.
    cbn. rewrite lookup_insert_eq. eauto.
  - destruct Hcall as (tok & ? & _ & _ & -> & _). simplify_eq.
    cbn. rewrite lookup_insert_eq. eauto.
  - destruct Hcall as (tok & ? & _ & _ & _ & _ & _ & _ & -> & _). simplify_eq.
    cbn. rewrite lookup_insert_eq. eauto.
  - destruct Hcall as (tok & ? & _ & _ & _ & _ & -> & _). simplify_eq.
    cbn. rewrite lookup_insert_eq. eauto.
  - destruct Hcall as (tok & ? & _ & _ & -> & _). simplify_eq.
    cbn. rewrite lookup_insert_eq. eauto.
Qed.

Lemma token_storage_after_all calls s k t :
  reachable s →
  tokens s !! k = Some t →
  (∀ c a, (c, UpdateAuthorAddress k a) ∉ calls) →
  ∃ t', tokens (storage_after_all calls s) !! k = Some t' ∧
        metadata t' = metadata t ∧ author t' = author t.
Proof.
  revert s t. induction calls as [| [ctx ep] calls IH]; intros s t Hreach Hk Hcalls;
    cbn; [by eauto|].
  destruct (token_storage_after ctx ep s k t Hreach Hk) as (t1 & Hk1 & Hmd & Hau).
  destruct (IH (storage_after ctx ep s) t1) as (t' & Hk' & Hmd' & Hau').
  - by apply reachable_storage_after.
  - done.
  - intros c a Hin. apply (Hcalls c a). by right.
  - exists t'. split; [done|]. split; [congruence|].
    destruct Hau as [Hau | ->]; [congruence|].
    destruct (Hcalls ctx (author t1)). by left.
Qed.

Lemma percentages_storage_after_all calls s :
  royalty_percent (storage_after_all calls s) = royalty_percent s ∧
  platform_fee_percent (storage_after_all calls s) = platform_fee_percent s.
Proof.
  revert s. induction calls as [| [ctx ep] calls IH]; intros s; cbn; [done|].
  destruct (IH (storage_after ctx ep s)) as [-> ->].
  destruct (storage_after_cases ctx ep s) as [[ops Hcall] | (msg & _ & ->)];
    [|done].
  by apply call_keeps_percentages in Hcall.
Qed.

(** X7. The royalty follows the recorded author through resales.  From a
    reachable state where the token has author [a], after any calls none of
    which is an [update_author_address] of that token, a [buy] that succeeds
    pays, as its first operation, the royalty at the percentage fixed at
    construction to [a]; the token still carries its metadata. *)
Theorem royalty_paid_to_recorded_author
    (calls : list (context * entrypoint)) (ctx : context) (token_id : N)
    (s s' : storage) (ops : list operation) (t : token) :
  reachable s →
  tokens s !! token_id = Some t →
  (∀ c a, (c, UpdateAuthorAddress token_id a) ∉ calls) →
  call ctx (Buy token_id) (storage_after_all calls s) = Done (s', ops) →
  ∃ tok,
    tokens (storage_after_all calls s) !! token_id = Some tok ∧
    metadata tok = metadata t ∧
    head ops = Some (Send (author t) (price tok * royalty_percent s / 100)).
Proof.
  intros Hreach Hk Hcalls Hbuy.
  destruct (token_storage_after_all calls s token_id t Hreach Hk Hcalls)
    as (t' & Hk' & Hmd & Hau).
  apply call_buy_done in Hbuy as (tok & Htok & _ & _ & _ & _ & _ & _ & _ & ->).
  assert (tok = t') as -> by congruence.
  exists t'. split; [done|]. split; [done|].
  destruct (percentages_storage_after_all calls s) as [-> _].
  cbn. by rewrite Hau.
Qed.

(** ** Fees and the balance of the contract *)

(** X8. [withdraw_fees] succeeds exactly for the administrator with a
    positive amount of collected fees.  It sends the whole amount to the
    administrator in one operation, resets [collected_fees] to 0 and touches
    no token; a second withdrawal right after it fails with
    "No fees to withdraw". *)
Theorem withdraw_fees_pays_everything (ctx : context) (s : storage) :
  ((∃ s' ops, call ctx WithdrawFees s = Done (s', ops)) ↔
   (sender ctx = admin s ∧ 0 < collected_fees s)) ∧
  (∀ s' ops,
     call ctx WithdrawFees s = Done (s', ops) →
     ops = [Send (admin s) (collected_fees s)] ∧
     collected_fees s' = 0 ∧ tokens s' = tokens s ∧ admin s' = admin s ∧
     call ctx WithdrawFees s' = Failed "No fees to withdraw").
Proof.
  split; [split|].
  - intros (s' & ops & H). apply call_done_completes in H.
    destruct H as (? & ? & _). done.
  - intros [Ha Hpos]. do 2 eexists.
    apply completes_call_done_simple; [done|]. cbn. done.
  - intros s' ops H. apply call_done_completes in H.
    destruct H as (Ha & _ & -> & ->). repeat split.
    exec; first [done | congruence | lia].
Qed.

Lemma completed_call_books
    (ctx : context) (ep : entrypoint) (s s' : storage) (ops : list operation) :
  call ctx ep s = Done (s', ops) →
  collected_fees s' + sent_total ops
    = collected_fees s + (if payment_not_read ep then 0 else amount ctx).
Proof.
  intros H. apply call_done_completes in H. destruct ep; cbn in *.
  - destruct H as (_ & _ & -> & ->). cbn. lia.
  - destruct H as (tok & _ & _ & _ & _ & _ & -> & ->). cbn. lia.
  - destruct H as (tok & _ & _ & _ & -> & ->). cbn. lia.
  - destruct H as (tok & _ & _ & _ & _ & -> & Hr & Hf & -> & ->). cbn.
    generalize dependent (price tok * royalty_percent s / 100).
    generalize dependent (price tok * platform_fee_percent s / 100).
    intros; lia.
  - destruct H as (tok & _ & -> & _ & _ & _ & -> & ->). cbn. lia.
  - destruct H as (tok & _ & _ & _ & -> & ->). cbn. lia.
  - destruct H as (_ & _ & -> & ->). cbn. lia.
  - destruct H as (_ & -> & ->). cbn. lia.
  - destruct H as (_ & -> & ->). cbn. lia.
  - destruct H as (_ & _ & -> & ->). cbn. lia.
Qed.

(** X9. The books of a completed call balance.  For [mint], [buy] and
    [transfer] the fees booked afterwards plus everything sent out equal the
    fees booked before plus the payment received.  For the other entrypoints
    they equal the fees booked before: the payment, if any, is received but
    neither booked nor sent on. *)
Theorem call_accounting
    (ctx : context) (ep : entrypoint) (s s' : storage) (ops : list operation) :
  call ctx ep s = Done (s', ops) →
  collected_fees s' + sent_total ops
    = collected_fees s + (if payment_not_read ep then 0 else amount ctx).
Proof. apply completed_call_books. Qed.

Lemma balance_step ctx ep s balance :
  collected_fees s ≤ balance →
  collected_fees (storage_after ctx ep s) ≤ balance_after ctx ep s balance ∧
  balance - collected_fees s
    ≤ balance_after ctx ep s balance - collected_fees (storage_after ctx ep s).
Proof.
  intros Hle. unfold storage_after, balance_after.
  destruct (call ctx ep s) as [[s' ops] | msg] eqn:Hcall; [|lia].
  pose proof (completed_call_books ctx ep s s' ops Hcall) as Hacc.
  destruct (payment_not_read ep); lia.
Qed.

(** X10. The collected fees are always covered.  Along any sequence of calls,
    when the host credits each completed call with its payment and debits
    what it sends, [collected_fees] never exceeds the balance of the contract
    if it did not at the start, as at construction, where it is 0.  The part
    of the balance that is not collected fees never shrinks: no entrypoint
    pays it out. *)
Theorem fees_covered_by_balance
    (calls : list (context * entrypoint)) (s : storage) (balance : mutez) :
  collected_fees s ≤ balance →
  collected_fees (storage_after_all calls s) ≤ balance_after_all calls s balance ∧
  balance - collected_fees s
    ≤ balance_after_all calls s balance
      - collected_fees (storage_after_all calls s).
Proof.
  revert s balance.
  induction calls as [| [ctx ep] calls IH]; intros s balance Hle; cbn; [lia|].
  destruct (balance_step ctx ep s balance Hle) as [Hle' Hmono].
  destruct (IH _ _ Hle') as [Hfin Hmono']. split; [done|lia].
Qed.

(** ** Who can change what *)

(** X11. A completed call writes at most one token: the one named by its
    [token_id] argument, or for [mint] the one at [next_id]; every other entry
    of [tokens] is as before.  In a reachable state the key [mint] writes was
    free, so minting never overwrites a token. *)
Theorem call_writes_one_token
    (ctx : context) (ep : entrypoint) (s s' : storage) (ops : list operation) :
  reachable s →
  call ctx ep s = Done (s', ops) →
  (∀ k, written_token ep s ≠ Some k → tokens s' !! k = tokens s !! k) ∧
  (∀ metadata0, ep = Mint metadata0 → tokens s !! next_id s = None).
Proof.
  intros Hreach H. apply call_done_completes in H. split.
  - intros k Hk. by eapply completes_other_tokens.
  - intros _ _. destruct (reachable_keys_below_next_id s Hreach) as [Hkeys _].
    apply eq_None_not_Some. rewrite Hkeys. lia.
Qed.

(** X12. Changes to a token are authorised.  When a completed call in a
    reachable state changes the token at a key, its metadata is kept; its
    author changes only through [update_author_address] called by the author;
    its owner changes only through [transfer] called by the owner or through
    a [buy] of the listed token paid at its price, which makes the caller the
    owner; its price or listing change only in a call by the owner or in a
    [buy]. *)
Theorem token_changes_are_authorised
    (ctx : context) (ep : entrypoint) (s s' : storage) (ops : list operation)
    (k : N) (t t' : token) :
  reachable s →
  call ctx ep s = Done (s', ops) →
  tokens s !! k = Some t →
  tokens s' !! k = Some t' →
  metadata t' = metadata t ∧
  (author t' ≠ author t →
     sender ctx = author t ∧ ep = UpdateAuthorAddress k (author t')) ∧
  (owner t' ≠ owner t →
     (sender ctx = owner t ∧ ep = Transfer k (owner t')) ∨
     (ep = Buy k ∧ owner t' = sender ctx ∧ for_sale t = true ∧
      amount ctx = price t)) ∧
  (for_sale t' ≠ for_sale t ∨ price t' ≠ price t →
     sender ctx = owner t ∨ ep = Buy k).
Proof.
  intros Hreach H Hk Hk'. apply call_done_completes in H.
  destruct (decide (written_token ep s = Some k)) as [Hw | Hw].
  2: { rewrite (completes_other_tokens _ _ _ _ _ _ H Hw) in Hk'.
       simplify_eq. repeat split; try done. intros [? | ?]; done. }
  destruct ep; cbn in *; simplify_eq.
  - destruct (reachable_keys_below_next_id s Hreach) as [Hkeys _].
    assert (next_id s < next_id s); [|lia]. apply Hkeys. by eexists.
  - destruct H as (tok & ? & _ & ? & _ & _ & -> & _). cbn in Hk'.
    rewrite lookup_insert_eq in Hk'. simplify_eq. cbn.
    repeat split; try done. by left.
  - destruct H as (tok & ? & ? & _ & -> & _). cbn in Hk'.
    rewrite lookup_insert_eq in Hk'. simplify_eq. cbn.
    repeat split; try done. by left.
  - destruct H as (tok & ? & _ & ? & _ & ? & _ & _ & -> & _). cbn in Hk'.
    rewrite lookup_insert_eq in Hk'. simplify_eq. cbn.
    repeat split; try done; [by right | by right].
  - destruct H as (tok & ? & _ & ? & _ & _ & -> & _). cbn in Hk'.
    rewrite lookup_insert_eq in Hk'. simplify_eq. cbn.
    repeat split; try done; [by left | by left].
  - destruct H as (tok & ? & ? & _ & -> & _). cbn in Hk'.
    rewrite lookup_insert_eq in Hk'. simplify_eq. cbn.
    repeat split; try done. intros [? | ?]; done.
Qed.

(** X13. The settings are the administrator's.  A completed call never
    changes the two percentages.  If it changes [admin], [mint_price] or
    [paused], or lowers [collected_fees], its caller is the administrator. *)
Theorem settings_changes_are_authorised
    (ctx : context) (ep : entrypoint) (s s' : storage) (ops : list operation) :
  call ctx ep s = Done (s', ops) →
  royalty_percent s' = royalty_percent s ∧
  platform_fee_percent s' = platform_fee_percent s ∧
  (admin s' ≠ admin s ∨ mint_price s' ≠ mint_price s ∨ paused s' ≠ paused s ∨
   collected_fees s' < collected_fees s →
   sender ctx = admin s).
Proof.
  intros H. apply call_done_completes in H. destruct ep; cbn in *.
  - destruct H as (_ & _ & -> & _). cbn. repeat split. intros [?|[?|[?|?]]];
      first [done | lia].
  - destruct H as (tok & _ & _ & _ & _ & _ & -> & _). cbn. repeat split.
    intros [?|[?|[?|?]]]; first [done | lia].
  - destruct H as (tok & _ & _ & _ & -> & _). cbn. repeat split.
    intros [?|[?|[?|?]]]; first [done | lia].
  - destruct H as (tok & _ & _ & _ & _ & _ & _ & _ & -> & _). cbn. repeat split.
    pose proof (N.le_add_r (collected_fees s)
                  (price tok * platform_fee_percent s / 100)).
    intros [?|[?|[?|?]]]; first [done | lia].
  - destruct H as (tok & _ & _ & _ & _ & _ & -> & _). cbn. repeat split.
    intros [?|[?|[?|?]]]; first [done | lia].
  - destruct H as (tok & _ & _ & _ & -> & _). cbn. repeat split.
    intros [?|[?|[?|?]]]; first [done | lia].
  - destruct H as (? & _ & -> & _). done.
  - destruct H as (? & -> & _). done.
  - destruct H as (? & -> & _). done.
  - destruct H as (? & _ & -> & _). done.
Qed.

(** ** Views and missing tokens *)

(** X14. In a reachable state the valid token ids are those below the result
    of [get_total_tokens], which is the number of tokens: for such an id
    [get_token] returns the stored token and [is_for_sale] its listing flag,
    for any other id both fail with "Token does not exist".  No view writes. *)
Theorem views_read_the_storage (token_id : N) (s : storage) :
  reachable s →
  run get_total_tokens s
    = (Done (N.of_nat (size (tokens s))), mk_machine s []) ∧
  (token_id < N.of_nat (size (tokens s)) →
     ∃ t, tokens s !! token_id = Some t ∧
          run (get_token token_id) s = (Done t, mk_machine s []) ∧
          run (is_for_sale token_id) s = (Done (for_sale t), mk_machine s [])) ∧
  (N.of_nat (size (tokens s)) ≤ token_id →
     run (get_token token_id) s
       = (Failed "Token does not exist", mk_machine s []) ∧
     run (is_for_sale token_id) s
       = (Failed "Token does not exist", mk_machine s [])).
Proof.
  intros Hreach.
  destruct (reachable_keys_below_next_id s Hreach) as [Hkeys Hsize].
  rewrite Hsize. split; [done|]. split.
  - intros Hlt. apply Hkeys in Hlt as [t Ht]. exists t. split; [done|].
    pose proof (contains_lookup _ _ _ Ht). split; exec; congruence.
  - intros Hge. assert (tokens s !! token_id = None) as Hnone.
    { apply eq_None_not_Some. rewrite Hkeys. lia. }
    apply contains_false in Hnone. split; exec; congruence.
Qed.

(** X15. On a token that does not exist, [cancel_sale], [transfer] and
    [update_author_address] fail with "Token does not exist"; so do
    [list_for_sale] and [buy] unless the contract is paused, in which case
    they fail with "Contract is paused" first. *)
Theorem missing_token_is_reported
    (ctx : context) (token_id : N) (s : storage) :
  tokens s !! token_id = None →
  call ctx (CancelSale token_id) s = Failed "Token does not exist" ∧
  (∀ new_owner,
     call ctx (Transfer token_id new_owner) s = Failed "Token does not exist") ∧
  (∀ new_author,
     call ctx (UpdateAuthorAddress token_id new_author) s
       = Failed "Token does not exist") ∧
  (∀ price0,
     call ctx (ListForSale token_id price0) s
       = Failed (if paused s then "Contract is paused"
                 else "Token does not exist")) ∧
  call ctx (Buy token_id) s
    = Failed (if paused s then "Contract is paused" else "Token does not exist").
Proof.
  intros Hnone. apply contains_false in Hnone.
  repeat apply conj; intros; exec;
    first [ done | congruence
          | exfalso;
            match goal with
            | Hs : is_Some ?x, Hn : ?x = None |- _ =>
                rewrite Hn in Hs; by destruct Hs
            end ].
Qed.

(** ** Sales *)

Lemma seller_share_bound (p r f : N) :
  r + f < 100 → 0 < p →
  0 < p - p * r / 100 - p * f / 100 ∧
  p * (100 - (r + f)) ≤ 100 * (p - p * r / 100 - p * f / 100).
Proof.
  intros Hrf Hp.
  pose proof (N.Div0.mul_div_le (p * r) 100) as Hr.
  pose proof (N.Div0.mul_div_le (p * f) 100) as Hf.
  set (c := 100 - (r + f)).
  assert (r + f + c = 100) as Hc by lia.
  assert (0 < p * c) as Hpc by (apply N.mul_pos_pos; lia).
  assert (p * r + p * f + p * c = 100 * p) as Hsum.
  { rewrite <- !N.mul_add_distr_l, Hc. apply N.mul_comm. }
  clearbody c. generalize dependent (p * c).
  generalize dependent (p * r / 100). generalize dependent (p * f / 100).
  generalize dependent (p * r). generalize dependent (p * f).
  intros; lia.
Qed.

(** X16. In a reachable state the seller is always paid.  A [buy] that
    succeeds sends the former owner a positive amount, at least the share of
    the price that the two percentages leave, [price * (100 - royalty_percent
    - platform_fee_percent) / 100]. *)
Theorem seller_is_paid
    (ctx : context) (token_id : N) (s s' : storage) (ops : list operation)
    (tok : token) :
  reachable s →
  call ctx (Buy token_id) s = Done (s', ops) →
  tokens s !! token_id = Some tok →
  ∃ royalty seller_amount,
    ops = [Send (author tok) royalty; Send (owner tok) seller_amount] ∧
    0 < seller_amount ∧
    price tok * (100 - (royalty_percent s + platform_fee_percent s))
      ≤ 100 * seller_amount.
Proof.
  intros Hreach H Htok.
  apply call_buy_done in H as (tok' & Htok' & _ & Hfs & _ & _ & _ & _ & _ & ->).
  assert (tok' = tok) as -> by congruence.
  destruct (reachable_sale_invariants s Hreach) as [Hl _].
  pose proof (Hl token_id tok Htok Hfs) as Hpos.
  pose proof (reachable_percentages s Hreach) as Hrf.
  destruct (seller_share_bound (price tok) _ _ Hrf Hpos) as [Hs Hb].
  do 2 eexists. split; [reflexivity|]. done.
Qed.

(** X17. A sale closes the listing and moves the rights.  After a [buy] that
    succeeded, another [buy] of the same token fails with
    "Token not for sale", whoever calls and whatever is paid; the former
    owner's [cancel_sale] fails with "Not the owner"; and the buyer can list
    the token again at any positive price. *)
Theorem buy_closes_the_listing
    (ctx : context) (token_id : N) (s s' : storage) (ops : list operation)
    (tok : token) :
  call ctx (Buy token_id) s = Done (s', ops) →
  tokens s !! token_id = Some tok →
  (∀ ctx', call ctx' (Buy token_id) s' = Failed "Token not for sale") ∧
  (∀ payment,
     call (mk_context (owner tok) payment) (CancelSale token_id) s'
       = Failed "Not the owner") ∧
  (∀ payment price0, 0 < price0 →
     call (mk_context (sender ctx) payment) (ListForSale token_id price0) s'
       = Done (with_token token_id
                 (mk_token (metadata tok) (author tok) (sender ctx) price0 true)
                 s', [])).
Proof.
  intros H Htok.
  apply call_buy_done in H as (tok' & Htok' & Hp & _ & Hne & _ & _ & _ & -> & _).
  assert (tok' = tok) as -> by congruence.
  assert (contains token_id (bought ctx token_id tok s) = true) as Hc.
  { apply contains_true. cbn. rewrite lookup_insert_eq. by eexists. }
  repeat apply conj.
  - intros ctx'. exec; first [done | congruence].
  - intros payment. exec; first [done | congruence].
  - intros payment price0 Hpos.
    apply completes_call_done_simple; [done|]. cbn.
    eexists. rewrite lookup_insert_eq. repeat split; done.
Qed.

(** X18. After a [transfer] that succeeded the former owner has no rights on
    the token left: its [cancel_sale] and [transfer] fail with
    "Not the owner", and so does its [list_for_sale] when the contract is not
    paused. *)
Theorem transfer_moves_the_rights
    (ctx : context) (token_id : N) (new_owner : address)
    (s s' : storage) (ops : list operation) :
  call ctx (Transfer token_id new_owner) s = Done (s', ops) →
  (∀ payment,
     call (mk_context (sender ctx) payment) (CancelSale token_id) s'
       = Failed "Not the owner") ∧
  (∀ someone,
     call (mk_context (sender ctx) 0) (Transfer token_id someone) s'
       = Failed "Not the owner") ∧
  (∀ payment price0, paused s' = false →
     call (mk_context (sender ctx) payment) (ListForSale token_id price0) s'
       = Failed "Not the owner").
Proof.
  intros H. apply call_done_completes in H.
  destruct H as (tok & Htok & _ & Ho & Hne & Hfs & -> & ->).
  assert (contains token_id (with_token token_id (set_owner new_owner tok) s)
          = true) as Hc.
  { apply contains_true. cbn. rewrite lookup_insert_eq. by eexists. }
  repeat apply conj.
  - intros payment. exec; first [done | congruence].
  - intros someone. exec; first [done | congruence].
  - intros payment price0 Hp. exec; first [done | congruence].
Qed.

(** ** Construction and settings *)

(** X19. Construction succeeds exactly when the two percentages add up to
    less than 100, and fails with "Fees too high" otherwise.  The contract
    starts empty, unpaused, without fees, and through any sequence of calls
    the two percentages stay the ones given at construction, each at most
    99. *)
Theorem percentages_fixed_at_construction
    (admin0 : address) (mint_price0 : mutez)
    (royalty_percent0 platform_fee_percent0 : N)
    (calls : list (context * entrypoint)) :
  (100 ≤ royalty_percent0 + platform_fee_percent0 →
     init admin0 mint_price0 royalty_percent0 platform_fee_percent0
       = Failed "Fees too high") ∧
  (royalty_percent0 + platform_fee_percent0 < 100 →
     ∃ s, init admin0 mint_price0 royalty_percent0 platform_fee_percent0 = Done s ∧
          tokens s = ∅ ∧ next_id s = 0 ∧ collected_fees s = 0 ∧
          paused s = false ∧ admin s = admin0 ∧ mint_price s = mint_price0 ∧
          royalty_percent (storage_after_all calls s) = royalty_percent0 ∧
          platform_fee_percent (storage_after_all calls s) = platform_fee_percent0 ∧
          royalty_percent0 ≤ 99 ∧ platform_fee_percent0 ≤ 99).
Proof.
  split; intros Hrf; unfold init; case_bool_decide; try lia; [done|].
  eexists. split; [reflexivity|].
  destruct (percentages_storage_after_all calls
              (mk_storage ∅ 0 admin0 mint_price0 royalty_percent0
                 platform_fee_percent0 0 false)) as [-> ->].
  cbn. repeat split; lia.
Qed.

Lemma next_id_call ctx ep s s' ops :
  call ctx ep s = Done (s', ops) →
  next_id s' = next_id s + match ep with Mint _ => 1 | _ => 0 end.
Proof.
  intros Hcall. apply call_done_completes in Hcall. destruct ep; cbn in *.
  - destruct Hcall as (_ & _ & -> & _). cbn. lia.
  - destruct Hcall as (tok & _ & _ & _ & _ & _ & -> & _). cbn. lia.
  - destruct Hcall as (tok & _ & _ & _ & -> & _). cbn. lia.
  - destruct Hcall as (tok & _ & _ & _ & _ & _ & _ & _ & -> & _). cbn. lia.
  - destruct Hcall as (tok & _ & _ & _ & _ & _ & -> & _). cbn. lia.
  - destruct Hcall as (tok & _ & _ & _ & -> & _). cbn. lia.
  - destruct Hcall as (_ & _ & -> & _). cbn. lia.
  - destruct Hcall as (_ & -> & _). cbn. lia.
  - destruct Hcall as (_ & -> & _). cbn. lia.
  - destruct Hcall as (_ & _ & -> & _). cbn. lia.
Qed.

Lemma completed_mints_cons ctx ep calls s :
  completed_mints ((ctx, ep) :: calls) s
    = match ep with
      | Mint _ => match call ctx ep s with Done _ => 1 | Failed _ => 0 end
      | _ => 0
      end + completed_mints calls (storage_after ctx ep s).
Proof. destruct ep; reflexivity. Qed.

(** X20. [next_id] counts the mints.  After any sequence of calls, [next_id]
    has grown by the number of [mint] calls in it that completed; no other
    call moves it. *)
Theorem next_id_counts_mints
    (calls : list (context * entrypoint)) (s : storage) :
  next_id (storage_after_all calls s) = next_id s + completed_mints calls s.
Proof.
  revert s. induction calls as [| [ctx ep] calls IH]; intros s;
    [cbn; lia|].
  rewrite completed_mints_cons. cbn [storage_after_all].
  rewrite IH. unfold storage_after.
  destruct (call ctx ep s) as [[s' ops] | msg] eqn:Hcall.
  - rewrite (next_id_call _ _ _ _ _ Hcall). destruct ep; lia.
  - destruct ep; lia.
Qed.

(** X21. A new mint price applies to the next mint.  After an
    [update_mint_price] to [new_price] that succeeded on an unpaused contract,
    a [mint] succeeds exactly when it is paid [new_price]. *)
Theorem update_mint_price_applies
    (ctx ctx' : context) (new_price : mutez) (metadata0 : string)
    (s s' : storage) (ops : list operation) :
  call ctx (UpdateMintPrice new_price) s = Done (s', ops) →
  paused s = false →
  ((∃ s'' ops', call ctx' (Mint metadata0) s' = Done (s'', ops')) ↔
   amount ctx' = new_price).
Proof.
  intros H Hp. apply call_done_completes in H. destruct H as (_ & -> & _).
  split.
  - intros (s'' & ops' & H). apply call_done_completes in H.
    destruct H as (_ & ? & _). done.
  - intros Ha. do 2 eexists. apply completes_call_done_simple; [done|].
    cbn. done.
Qed.

(** X22. The administration can be handed over and back.  After a
    [transfer_admin] to [new_admin] that succeeded, [new_admin] passes the
    administrator check: it can pause and unpause, and its [transfer_admin]
    back to the former administrator gives back the storage as it was.
    Naming the current administrator as the new one fails with
    "Same admin". *)
Theorem transfer_admin_hands_over
    (ctx : context) (new_admin : address) (s s' : storage)
    (ops : list operation) :
  call ctx (TransferAdmin new_admin) s = Done (s', ops) →
  (∀ payment paused0,
     call (mk_context new_admin payment) (SetPause paused0) s'
       = Done (set_paused paused0 s', [])) ∧
  (∀ payment,
     call (mk_context new_admin payment) (TransferAdmin (sender ctx)) s'
       = Done (s, [])) ∧
  (∀ payment,
     call (mk_context new_admin payment) (TransferAdmin new_admin) s'
       = Failed "Same admin").
Proof.
  intros H. apply call_done_completes in H.
  destruct H as (Ha & Hne & -> & ->). repeat apply conj.
  - intros payment b. apply completes_call_done_simple; [done|]. cbn. done.
  - intros payment. apply completes_call_done_simple; [done|]. cbn.
    repeat split; try congruence.
    destruct s; cbn in *. subst. done.
  - intros payment. exec; first [done | congruence].
Qed.

(** ** The further properties at the concrete run *)

Lemma list_for_sale_succeeds_iff_witness :
  ∃ s' ops,
    call (mk_context "alice" 0) (ListForSale 0 10000000) scenario_minted
      = Done (s', ops).
Proof.
  apply (list_for_sale_succeeds_iff (mk_context "alice" 0) 0 10000000
           scenario_minted).
  split; [reflexivity|]. exists token_of_alice.
  repeat split; vm_compute; reflexivity.
Defined.

Lemma list_then_cancel_restores_witness :
  call (mk_context "alice" 7) (CancelSale 0) scenario_listed
    = Done (scenario_minted, []).
Proof.
  apply (list_then_cancel_restores (mk_context "alice" 0) 0 10000000 7
           scenario_minted scenario_listed []).
  - apply (scenario_reachable [alice_mints]).
  - vm_compute. reflexivity.
Defined.

Lemma cancel_sale_succeeds_iff_witness :
  ∃ s' ops,
    call (mk_context "alice" 0) (CancelSale 0) scenario_listed_paused
      = Done (s', ops).
Proof.
  apply (cancel_sale_succeeds_iff (mk_context "alice" 0) 0 scenario_listed_paused).
  exists token_of_alice_listed. repeat split; vm_compute; reflexivity.
Defined.

Lemma transfer_succeeds_iff_witness :
  ∃ s' ops,
    call (mk_context "alice" 0) (Transfer 0 "bob") scenario_minted = Done (s', ops).
Proof.
  apply (transfer_succeeds_iff (mk_context "alice" 0) 0 "bob" scenario_minted).
  exists token_of_alice.
  repeat split; try (vm_compute; reflexivity). discriminate.
Defined.

Lemma transfer_back_restores_witness :
  call (mk_context "bob" 0) (Transfer 0 "alice")
       (with_token 0 (set_owner "bob" token_of_alice) scenario_minted)
    = Done (scenario_minted, []).
Proof.
  apply (transfer_back_restores (mk_context "alice" 0) 0 "bob" scenario_minted
           (with_token 0 (set_owner "bob" token_of_alice) scenario_minted) []).
  vm_compute. reflexivity.
Defined.

Lemma update_author_address_succeeds_iff_witness :
  ∃ s' ops,
    call (mk_context "alice" 0) (UpdateAuthorAddress 0 "new_wallet")
         scenario_minted = Done (s', ops).
Proof.
  apply (update_author_address_succeeds_iff (mk_context "alice" 0) 0
           "new_wallet" scenario_minted).
  exists token_of_alice.
  repeat split; try (vm_compute; reflexivity). discriminate.
Defined.

Lemma royalty_paid_to_recorded_author_witness :
  ∃ tok,
    tokens (storage_after_all [alice_lists] scenario_minted) !! 0 = Some tok ∧
    metadata tok = metadata token_of_alice ∧
    head [Send "alice" 500000; Send "alice" 9300000]
      = Some (Send (author token_of_alice)
                (price tok * royalty_percent scenario_minted / 100)).
Proof.
  apply (royalty_paid_to_recorded_author [alice_lists]
           (mk_context "bob" 10000000) 0 scenario_minted
           (bought (mk_context "bob" 10000000) 0 token_of_alice_listed
              scenario_listed)).
  - apply (scenario_reachable [alice_mints]).
  - vm_compute. reflexivity.
  - intros c a Hin. apply list_elem_of_singleton in Hin. discriminate.
  - vm_compute. reflexivity.
Defined.

Lemma withdraw_fees_pays_everything_witness :
  ∃ s' ops, call (mk_context "admin" 0) WithdrawFees scenario_minted = Done (s', ops).
Proof.
  apply (withdraw_fees_pays_everything (mk_context "admin" 0) scenario_minted).
  split; vm_compute; reflexivity.
Defined.

Lemma call_accounting_witness :
  1200000 + sent_total [Send "alice" 500000; Send "alice" 9300000]
    = 1000000 + 10000000.
Proof.
  assert (call (mk_context "bob" 10000000) (Buy 0) scenario_listed
          = Done (bought (mk_context "bob" 10000000) 0 token_of_alice_listed
                    scenario_listed,
                  [Send "alice" 500000; Send "alice" 9300000])) as Hcall
    by (vm_compute; reflexivity).
  exact (call_accounting _ _ _ _ _ Hcall).
Defined.

Lemma fees_covered_by_balance_witness :
  let calls := [alice_mints; (mk_context "alice" 5, ListForSale 0 10000000)] in
  collected_fees (storage_after_all calls scenario_start)
    ≤ balance_after_all calls scenario_start 0.
Proof.
  intros calls.
  apply (fees_covered_by_balance calls scenario_start 0).
  vm_compute. discriminate.
Defined.

Lemma call_writes_one_token_witness :
  tokens (minted (mk_context "bob" 1000000) "NFT #2 by Bob" scenario_minted) !! 0
    = tokens scenario_minted !! 0.
Proof.
  destruct (call_writes_one_token (mk_context "bob" 1000000)
              (Mint "NFT #2 by Bob") scenario_minted
              (minted (mk_context "bob" 1000000) "NFT #2 by Bob" scenario_minted)
              []) as [Hother _].
  - apply (scenario_reachable [alice_mints]).
  - vm_compute. reflexivity.
  - apply Hother. vm_compute. discriminate.
Defined.

Lemma token_changes_are_authorised_witness :
  metadata (mk_token "NFT #1 by Alice" "alice" "bob" 0 false)
    = metadata token_of_alice_listed.
Proof.
  destruct (token_changes_are_authorised (mk_context "bob" 10000000) (Buy 0)
              scenario_listed
              (bought (mk_context "bob" 10000000) 0 token_of_alice_listed
                 scenario_listed)
              [Send "alice" 500000; Send "alice" 9300000] 0
              token_of_alice_listed
              (mk_token "NFT #1 by Alice" "alice" "bob" 0 false)) as [Hmd _].
  - apply (scenario_reachable [alice_mints; alice_lists]).
  - vm_compute. reflexivity.
  - vm_compute. reflexivity.
  - vm_compute. reflexivity.
  - exact Hmd.
Defined.

Lemma settings_changes_are_authorised_witness :
  royalty_percent scenario_paused = royalty_percent scenario_minted.
Proof.
  destruct (settings_changes_are_authorised (mk_context "admin" 0)
              (SetPause true) scenario_minted scenario_paused []) as [Hr _].
  - vm_compute. reflexivity.
  - exact Hr.
Defined.

Lemma views_read_the_storage_witness :
  run get_total_tokens scenario_listed = (Done 1, mk_machine scenario_listed []) ∧
  ∃ t, tokens scenario_listed !! 0 = Some t ∧
       run (get_token 0) scenario_listed = (Done t, mk_machine scenario_listed []) ∧
       run (is_for_sale 0) scenario_listed
         = (Done (for_sale t), mk_machine scenario_listed []).
Proof.
  destruct (views_read_the_storage 0 scenario_listed
              (scenario_reachable [alice_mints; alice_lists]))
    as (Htotal & Hvalid & _).
  split; [exact Htotal|]. apply Hvalid. vm_compute. reflexivity.
Defined.

Lemma missing_token_is_reported_witness :
  call (mk_context "alice" 0) (CancelSale 999) scenario_minted
    = Failed "Token does not exist".
Proof.
  destruct (missing_token_is_reported (mk_context "alice" 0) 999 scenario_minted)
    as [Hcancel _].
  - vm_compute. reflexivity.
  - exact Hcancel.
Defined.

Lemma seller_is_paid_witness :
  ∃ royalty seller_amount,
    [Send "alice" 500000; Send "alice" 9300000]
      = [Send (author token_of_alice_listed) royalty;
         Send (owner token_of_alice_listed) seller_amount] ∧
    0 < seller_amount ∧
    price token_of_alice_listed
      * (100 - (royalty_percent scenario_listed
                + platform_fee_percent scenario_listed))
      ≤ 100 * seller_amount.
Proof.
  apply (seller_is_paid (mk_context "bob" 10000000) 0 scenario_listed
           (bought (mk_context "bob" 10000000) 0 token_of_alice_listed
              scenario_listed)).
  - apply (scenario_reachable [alice_mints; alice_lists]).
  - vm_compute. reflexivity.
  - vm_compute. reflexivity.
Defined.

Lemma buy_closes_the_listing_witness :
  call (mk_context "charlie" 10000000) (Buy 0)
       (bought (mk_context "bob" 10000000) 0 token_of_alice_listed scenario_listed)
    = Failed "Token not for sale".
Proof.
  destruct (buy_closes_the_listing (mk_context "bob" 10000000) 0 scenario_listed
              (bought (mk_context "bob" 10000000) 0 token_of_alice_listed
                 scenario_listed)
              [Send "alice" 500000; Send "alice" 9300000]
              token_of_alice_listed) as [Hagain _].
  - vm_compute. reflexivity.
  - vm_compute. reflexivity.
  - apply Hagain.
Defined.

Lemma transfer_moves_the_rights_witness :
  call (mk_context "alice" 0) (CancelSale 0)
       (with_token 0 (set_owner "bob" token_of_alice) scenario_minted)
    = Failed "Not the owner".
Proof.
  destruct (transfer_moves_the_rights (mk_context "alice" 0) 0 "bob"
              scenario_minted
              (with_token 0 (set_owner "bob" token_of_alice) scenario_minted) [])
    as [Hcancel _].
  - vm_compute. reflexivity.
  - apply (Hcancel 0).
Defined.

Lemma percentages_fixed_at_construction_witness :
  init "admin" 1000000 60 40 = Failed "Fees too high" ∧
  ∃ s, init "admin" 1000000 5 2 = Done s ∧
       royalty_percent (storage_after_all [alice_mints; alice_lists] s) = 5.
Proof.
  split.
  - apply (percentages_fixed_at_construction "admin" 1000000 60 40 []).
    vm_compute. discriminate.
  - destruct (percentages_fixed_at_construction "admin" 1000000 5 2
                [alice_mints; alice_lists]) as [_ Hok].
    destruct Hok as (s & Hinit & _ & _ & _ & _ & _ & _ & Hr & _).
    + vm_compute. reflexivity.
    + exists s. split; [exact Hinit | exact Hr].
Defined.

Lemma update_mint_price_applies_witness :
  ∃ s'' ops',
    call (mk_context "bob" 2000000) (Mint "NFT #2 by Bob")
         (set_mint_price 2000000 scenario_minted) = Done (s'', ops').
Proof.
  apply (update_mint_price_applies (mk_context "admin" 0)
           (mk_context "bob" 2000000) 2000000 "NFT #2 by Bob" scenario_minted
           (set_mint_price 2000000 scenario_minted) []).
  - vm_compute. reflexivity.
  - reflexivity.
  - reflexivity.
Defined.

Lemma transfer_admin_hands_over_witness :
  call (mk_context "new_admin" 0) (TransferAdmin "admin")
       (set_admin "new_admin" scenario_minted)
    = Done (scenario_minted, []).
Proof.
  destruct (transfer_admin_hands_over (mk_context "admin" 0) "new_admin"
              scenario_minted (set_admin "new_admin" scenario_minted) [])
    as (_ & Hback & _).
  - vm_compute. reflexivity.
  - apply (Hback 0).
Defined.
